(** * encrypt-excel.js: batch password protection of .xlsx workbooks

    A shallow embedding of [src/encrypt-excel.js].  The script is glue code
    around three external collaborators: the file system ([fs]), the
    workbook codec ([xlsx-populate]) and SHA-256 ([crypto]).  The file
    system is modelled as finite maps, the codec and the hash as Section
    variables, and the script's effects (console output, file-system calls,
    exceptions, [process.exit]) with a small state-and-outcome monad whose
    state records every external interaction in a chronological trace. *)

From Stdlib Require Import ZArith Lia.
From Stdlib Require String Ascii.
From stdpp Require Import base tactics option list strings pretty gmap.

Local Open Scope Z_scope.

(** ** Data model *)

(** A [Buffer] is a byte sequence. *)
Abbreviation Buffer := (list Byte.byte).

(** The file system: regular files with their content, and directories with
    their listing in [readdirSync] order. *)
Record FileSystem := mkFS {
  fs_files : gmap string Buffer;
  fs_dirs  : gmap string (list string)
}.

(** Console lines.  Each constructor stands for one template string of the
    source and carries the values interpolated into it; the rendering of
    numbers ([formatSize], [toFixed]) is not modelled. *)
Inductive Line :=
  | LUsageTitle                                  (* '使い方:' *)
  | LUsageEncrypt                                (* '  暗号化:  node ... encrypt ...' *)
  | LUsageDecrypt                                (* '  復号:    node ... decrypt ...' *)
  | LUsageVerify                                 (* '  検証:    node ... verify ...' *)
  | LNotFound (resolvedPath : string)            (* `エラー: ${resolvedPath} が見つかりません` *)
  | LNoTargets                                   (* '対象の.xlsxファイルが見つかりません' *)
  | LBatchHeader (n : nat) (isEncrypt : bool)    (* `${files.length}件のファイルを${..}します...` *)
  | LFileFailed (baseName message : string)      (* `  ❌ ${basename}: ${e.message}` *)
  | LBatchDone (success fail : nat)              (* `完了: ${success}件成功, ${fail}件失敗` *)
  | LUnknownCommand (command : string)           (* `不明なコマンド: ${command}` *)
  | LEncryptSkipped (fileName : string)          (* 既に暗号化済み、スキップ *)
  | LEncryptDone (fileName : string)             (* 暗号化完了 *)
  | LDecryptSkipped (fileName : string)          (* 暗号化されていません、スキップ *)
  | LDecryptDone (fileName : string)             (* 復号完了 *)
  | LVerifyStart (fileName : string)             (* 検証開始 *)
  | LOriginal (size : Z) (hashPrefix : string)   (* 元ファイル *)
  | LStep1                                       (* Step 1: 暗号化中... *)
  | LEncryptedSize (size : Z)                    (* 暗号化後 *)
  | LStep2                                       (* Step 2: 復号中... *)
  | LDecrypted (size : Z) (hashPrefix : string)  (* 復号後 *)
  | LPassthrough (size : Z) (hashPrefix : string)(* パススルー *)
  | LCompareHeader                               (* --- 比較結果 --- *)
  | LPassVsDecrypt (same : bool)                 (* パススルー vs 復号後 *)
  | LSizeDiff (sizeDiff originalSize : Z)        (* 元 vs 復号後 サイズ差 *)
  | LSheetsHeader                                (* --- シート構造比較 --- *)
  | LOrigSheets (n : nat) (names : string)       (* 元シート数 *)
  | LDecSheets (n : nat) (names : string)        (* 復号シート数 *)
  | LSheetsMatch (same : bool)                   (* シート構造 *)
  | LVerdict (passVsDecrypt : bool)              (* 検証成功 / 検証注意 *)
  | LTopLevelError (message : string).           (* 'エラー:', e.message *)

(** Everything the process does to the outside world, in order. *)
Inductive Event :=
  | EvOut (l : Line)                      (* console.log *)
  | EvErr (l : Line)                      (* console.error *)
  | EvExists (path : string)              (* fs.existsSync *)
  | EvStat (path : string)                (* fs.statSync *)
  | EvReaddir (path : string)             (* fs.readdirSync *)
  | EvRead (path : string)                (* a file's content is read *)
  | EvWrite (path : string) (data : Buffer). (* a file is created or overwritten *)

Record World := mkWorld {
  w_fs    : FileSystem;
  w_trace : list Event;   (* oldest event first *)
  w_tick  : nat           (* number of serialisations so far *)
}.

(** How a computation ends: it returns, it throws an [Error] with a message,
    or it ends the process with [process.exit]. *)
Inductive Outcome (A : Type) :=
  | Return (a : A)
  | Throw (message : string)
  | Exit (code : Z).
Arguments Return {A} a.
Arguments Throw {A} message.
Arguments Exit {A} code.

(** The result of a pure call into a library: a value or a thrown message. *)
Inductive Res (A : Type) :=
  | Val (a : A)
  | Err (message : string).
Arguments Val {A} a.
Arguments Err {A} message.

Definition is_val {A} (r : Res A) : bool :=
  match r with Val _ => true | Err _ => false end.

(** ** The effect monad *)

Definition M (A : Type) : Type := World -> Outcome A * World.

Definition ret {A} (a : A) : M A := fun w => (Return a, w).

Definition bind {A B} (m : M A) (k : A -> M B) : M B :=
  fun w =>
    match m w with
    | (Return a, w') => k a w'
    | (Throw msg, w') => (Throw msg, w')
    | (Exit c, w') => (Exit c, w')
    end.

Declare Scope prog_scope.
Delimit Scope prog_scope with prog.
Notation "x <- m ;; k" := (bind m (fun x => k))
  (at level 100, m at next level, right associativity) : prog_scope.
Notation "m ;; k" := (bind m (fun _ => k))
  (at level 100, k at level 200, right associativity) : prog_scope.
Local Open Scope prog_scope.

(** [throw new Error(msg)] *)
Definition throw {A} (msg : string) : M A := fun w => (Throw msg, w).

(** [process.exit(code)]: ends the process; no [catch] intercepts it. *)
Definition process_exit {A} (code : Z) : M A := fun w => (Exit code, w).

(** [try { m } catch (e) { h e.message }] *)
Definition try_catch {A} (m : M A) (h : string -> M A) : M A :=
  fun w =>
    match m w with
    | (Throw msg, w') => h msg w'
    | r => r
    end.

(** The world after one more event. *)
Definition after (w : World) (e : Event) : World :=
  mkWorld (w_fs w) (w_trace w ++ [e]) (w_tick w).

Definition emit (e : Event) : M unit := fun w => (Return tt, after w e).

Definition console_log (l : Line) : M unit := emit (EvOut l).
Definition console_error (l : Line) : M unit := emit (EvErr l).

(** A library call that throws, seen from the script. *)
Definition ofRes {A} (r : Res A) : Outcome A :=
  match r with
  | Val a => Return a
  | Err msg => Throw msg
  end.

Definition lift_res {A} (r : Res A) : M A := fun w => (ofRes r, w).

(** ** JavaScript string and argument helpers

    File names are byte strings (UTF-8).  The two literals the script
    compares them with, [.xlsx] and [~$], are ASCII, so a byte-wise prefix
    or suffix test agrees with JavaScript's test on UTF-16 code units. *)

(** [s.startsWith(pre)] *)
Definition startsWith (s pre : string) : bool := String.prefix pre s.

(** [s.endsWith(suf)]: the last [suf.length] characters of [s] are [suf]. *)
Definition endsWith (s suf : string) : bool :=
  let n := String.length s in
  let m := String.length suf in
  if (m <=? n)%nat then String.eqb (String.substring (n - m) m s) suf
  else false.

(** A destructured [process.argv] slot is [undefined] (here [None]) or a
    string; [!x] holds for [undefined] and for the empty string. *)
Definition falsy (x : option string) : bool :=
  match x with
  | None => true
  | Some s => String.eqb s ""
  end.

(** [f => f.endsWith('.xlsx') && !f.startsWith('~$')] *)
Definition isCandidate (f : string) : bool :=
  endsWith f ".xlsx" && negb (startsWith f "~$").

(** ** Observations on outcomes and traces *)

Definition succeeds {A} (o : Outcome A) : bool :=
  match o with
  | Return _ => true
  | _ => false
  end.

Definition isWrite (e : Event) : bool :=
  match e with
  | EvWrite _ _ => true
  | _ => false
  end.

(** The events that touch a file's content. *)
Definition isFileAccess (e : Event) : bool :=
  match e with
  | EvRead _ | EvWrite _ _ => true
  | _ => false
  end.

(** The world after some more events, the file system untouched. *)
Definition addEvents (w : World) (evs : list Event) : World :=
  mkWorld (w_fs w) (w_trace w ++ evs) (w_tick w).

(** No file was touched between [w] and [w']: the file system is the same
    and no event in between reads or writes a file. *)
Definition noFileTouched (w w' : World) : Prop :=
  w_fs w' = w_fs w /\
  exists evs, w_trace w' = w_trace w ++ evs /\ List.filter isFileAccess evs = [].

(** What printing the usage adds to the trace. *)
Definition usageLines : list Event :=
  [EvOut LUsageTitle; EvOut LUsageEncrypt; EvOut LUsageDecrypt; EvOut LUsageVerify].

(** The failed entries of a list of per-file results. *)
Definition countFailed (results : list (string * option string)) : nat :=
  length (List.filter (fun r => bool_decide (is_Some (snd r))) results).

(** ** Sizes for display

    [x.toFixed(f)] prints the integer [n] for which [n / 10^f] is nearest to
    [x], the larger one on a tie, with [f] digits after the point.  The
    script applies it to [bytes / 1024] and [bytes / (1024 * 1024)] only:
    for an integer [bytes] below [2^53] such a quotient by a power of two is
    exact in binary64, so [x] is the rational [num / den] and [n] is
    computed here on integers. *)
Definition toFixedNearest (f : nat) (num den : N) : N :=
  ((2 * num * 10 ^ N.of_nat f + den) / (2 * den))%N.

(** The last [f] decimal digits of [n], with leading zeros. *)
Fixpoint fracDigits (f : nat) (n : N) : string :=
  match f with
  | O => ""
  | S f' => fracDigits f' (n / 10)%N +:+ pretty (n mod 10)%N
  end.

Definition toFixed (f : nat) (num den : N) : string :=
  let n := toFixedNearest f num den in
  pretty (n / 10 ^ N.of_nat f)%N +:+
  match f with
  | O => ""
  | S _ => "." +:+ fracDigits f n
  end.

(** [formatSize(bytes)] *)
Definition formatSize (bytes : N) : string :=
  if (bytes <? 1024)%N then pretty bytes +:+ " B"
  else if (bytes <? 1024 * 1024)%N then toFixed 1 bytes 1024 +:+ " KB"
  else toFixed 2 bytes (1024 * 1024) +:+ " MB".

(** ** Footprints *)

(** The path whose content an event reads or writes. *)
Definition eventPath (e : Event) : option string :=
  match e with
  | EvRead p | EvWrite p _ => Some p
  | _ => None
  end.

(** Between [w] and [w'] only files at paths in [P] were read or written:
    the directories are the same, the same files exist, every file outside
    [P] has the content it had, and every read or write in between is at a
    path in [P]. *)
Definition touchesOnly (P : string -> Prop) (w w' : World) : Prop :=
  fs_dirs (w_fs w') = fs_dirs (w_fs w) /\
  (forall p, is_Some (fs_files (w_fs w') !! p) <-> is_Some (fs_files (w_fs w) !! p)) /\
  (forall p, ~ P p -> fs_files (w_fs w') !! p = fs_files (w_fs w) !! p) /\
  exists evs,
    w_trace w' = w_trace w ++ evs /\
    Forall (fun e => forall p, eventPath e = Some p -> P p) evs.

(** A computation that, from any world, touches only [P] and ends the
    process, if it does, with a status in [E]. *)
Definition confined {A} (P : string -> Prop) (E : Z -> Prop) (m : M A) : Prop :=
  forall w,
    touchesOnly P w (snd (m w)) /\
    (forall c, fst (m w) = Exit c -> E c).

(** A computation that, from any world, writes no file: the file system
    it leaves is the one it found and it adds no write to the trace. *)
Definition writesNothing {A} (m : M A) : Prop :=
  forall w,
    w_fs (snd (m w)) = w_fs w /\
    exists evs,
      w_trace (snd (m w)) = w_trace w ++ evs /\ List.filter isWrite evs = [].

(** The two statuses the script passes to [process.exit]. *)
Definition zeroOrOne (c : Z) : Prop := c = 0 \/ c = 1.

(** Whether a sheet name holds the separator of [join(',')]. *)
Fixpoint hasComma (s : string) : bool :=
  match s with
  | EmptyString => false
  | String c rest => String.eqb (String c "") "," || hasComma rest
  end.

(** ** A small concrete instance

    A toy codec and file system on which the script can be run.  A toy
    document is a flag byte ([x00] open, [x01] protected), for a protected
    one a key byte derived from the password, and a payload. *)
Module Demo.

Definition fs_error (p : string) : string := "ENOENT: " +:+ p.

Definition path_resolve (p : string) : string := p.

Definition path_join (dir name : string) : string := dir +:+ "/" +:+ name.

Fixpoint basename_from (acc s : string) : string :=
  match s with
  | EmptyString => acc
  | String c rest =>
      if String.eqb (String c "") "/" then basename_from "" rest
      else basename_from (acc +:+ String c "") rest
  end.

Definition path_basename (p : string) : string := basename_from "" p.

Definition Workbook : Type := Buffer.

Definition key (pw : string) : Byte.byte :=
  match String.list_byte_of_string pw with
  | b :: _ => b
  | [] => Byte.x00
  end.

Definition fromData (data : Buffer) (pw : option string) : Res Workbook :=
  match data with
  | Byte.x00 :: payload => Val payload
  | Byte.x01 :: k :: payload =>
      match pw with
      | Some p => if Byte.eqb (key p) k then Val payload else Err "wrong password"
      | None => Err "password required"
      end
  | _ => Err "not a workbook"
  end.

Definition output (wb : Workbook) (pw : option string) (tick : nat) : Res Buffer :=
  match pw with
  | None => Val (Byte.x00 :: wb)
  | Some p => Val (Byte.x01 :: key p :: wb)
  end.

Definition sheetNames (wb : Workbook) : list string := ["Sheet1"].

Definition hashBuffer (data : Buffer) : string := String.string_of_list_byte data.

(** A directory [/d] listing six names: [a.xlsx] is an open document,
    [c.xlsx] is not a document at all, [s.xlsx] is protected with a password
    that starts with [1].  A directory [/empty] without any candidate. *)
Definition files : gmap string Buffer :=
  <["/d/a.xlsx" := [Byte.x00; Byte.x41]]>
  (<["/d/c.xlsx" := [Byte.x07]]>
  (<["/d/s.xlsx" := [Byte.x01; Byte.x31; Byte.x53]]>
  (<["/d/b.txt" := [Byte.x42]]> ∅))).

Definition dirs : gmap string (list string) :=
  <["/d" := ["a.xlsx"; "~$a.xlsx"; "b.txt"; "B.XLSX"; "c.xlsx"; "s.xlsx"]]>
  (<["/empty" := ["notes.txt"; "~$x.xlsx"]]> ∅).

Definition world : World := mkWorld (mkFS files dirs) [] 0.

End Demo.

(** * The script *)

Section Script.

(** Messages of the errors [fs] raises for a path it cannot read. *)
Variable fs_error : string -> string.

(** [path.resolve], [path.join], [path.basename]. *)
Variable path_resolve : string -> string.
Variable path_join : string -> string -> string.
Variable path_basename : string -> string.

(** The workbook codec.  [fromData data pw] parses a buffer, with a
    password or without; [output wb pw t] serialises a workbook, protected
    by a password or not.  The third argument of [output] is the number of
    serialisations performed before: the codec may salt its output. *)
Variable Workbook : Type.
Variable fromData : Buffer -> option string -> Res Workbook.
Variable output : Workbook -> option string -> nat -> Res Buffer.
Variable sheetNames : Workbook -> list string.

(** [crypto.createHash('sha256').update(buffer).digest('hex')] *)
Variable hashBuffer : Buffer -> string.

(** ** File-system primitives *)

(** What the file system holds at a path. *)
Definition pathExists (fs : FileSystem) (p : string) : bool :=
  bool_decide (is_Some (fs_files fs !! p)) || bool_decide (is_Some (fs_dirs fs !! p)).

Definition pathIsDirectory (fs : FileSystem) (p : string) : bool :=
  bool_decide (is_Some (fs_dirs fs !! p)).

Definition listing (fs : FileSystem) (p : string) : Res (list string) :=
  match fs_dirs fs !! p with
  | Some names => Val names
  | None => Err (fs_error p)
  end.

Definition content (fs : FileSystem) (p : string) : Res Buffer :=
  match fs_files fs !! p with
  | Some data => Val data
  | None => Err (fs_error p)
  end.

(** [fs.existsSync(p)] *)
Definition existsSync (p : string) : M bool :=
  fun w => (Return (pathExists (w_fs w) p), after w (EvExists p)).

(** [fs.statSync(p).isDirectory()] *)
Definition isDirectory (p : string) : M bool :=
  fun w => (Return (pathIsDirectory (w_fs w) p), after w (EvStat p)).

(** [fs.readdirSync(p)] *)
Definition readdirSync (p : string) : M (list string) :=
  fun w => (ofRes (listing (w_fs w) p), after w (EvReaddir p)).

(** [fs.readFileSync(p)] *)
Definition readFileSync (p : string) : M Buffer :=
  fun w => (ofRes (content (w_fs w) p), after w (EvRead p)).

(** Writing a file creates it or replaces its content. *)
Definition written (fs : FileSystem) (p : string) (data : Buffer) : FileSystem :=
  mkFS (<[p := data]> (fs_files fs)) (fs_dirs fs).

Definition writeFile (p : string) (data : Buffer) : M unit :=
  fun w =>
    (Return tt,
     mkWorld (written (w_fs w) p data) (w_trace w ++ [EvWrite p data]) (w_tick w)).

(** ** Codec calls *)

(** [XlsxPopulate.fromDataAsync(data, { password })] *)
Definition fromDataAsync (data : Buffer) (pw : option string) : M Workbook :=
  lift_res (fromData data pw).

(** [XlsxPopulate.fromFileAsync(path, { password })] *)
Definition fromFileAsync (p : string) (pw : option string) : M Workbook :=
  data <- readFileSync p ;;
  fromDataAsync data pw.

(** [workbook.outputAsync({ password, type: 'nodebuffer' })] *)
Definition outputAsync (wb : Workbook) (pw : option string) : M Buffer :=
  fun w =>
    (ofRes (output wb pw (w_tick w)),
     mkWorld (w_fs w) (w_trace w) (S (w_tick w))).

(** [workbook.toFileAsync(path, { password })] *)
Definition toFileAsync (wb : Workbook) (p : string) (pw : option string) : M unit :=
  data <- outputAsync wb pw ;;
  writeFile p data.

(** ** Utilities *)

Definition probe_error : string := "ファイルを開けません（パスワードが違う可能性）".

(** [isAlreadyEncrypted(filePath, password)] *)
Definition isAlreadyEncrypted (filePath password : string) : M bool :=
  try_catch
    (fromFileAsync filePath None ;; ret false)
    (fun _ =>
       try_catch
         (fromFileAsync filePath (Some password) ;; ret true)
         (fun _ => throw probe_error)).

(** ** Operations *)

(** [encryptFile(filePath, password)] *)
Definition encryptFile (filePath password : string) : M unit :=
  let fileName := path_basename filePath in
  already <- isAlreadyEncrypted filePath password ;;
  if already : bool then
    console_log (LEncryptSkipped fileName)
  else
    workbook <- fromFileAsync filePath None ;;
    toFileAsync workbook filePath (Some password) ;;
    console_log (LEncryptDone fileName).

(** [decryptFile(filePath, password)] *)
Definition decryptFile (filePath password : string) : M unit :=
  let fileName := path_basename filePath in
  already <- isAlreadyEncrypted filePath password ;;
  if negb already then
    console_log (LDecryptSkipped fileName)
  else
    workbook <- fromFileAsync filePath (Some password) ;;
    toFileAsync workbook filePath None ;;
    console_log (LDecryptDone fileName).

(** [verifyFile(filePath, password)] *)
Definition verifyFile (filePath password : string) : M unit :=
  let fileName := path_basename filePath in
  console_log (LVerifyStart fileName) ;;
  originalBuffer <- readFileSync filePath ;;
  let originalHash := hashBuffer originalBuffer in
  let originalSize := Z.of_nat (length originalBuffer) in
  console_log (LOriginal originalSize (String.substring 0 16 originalHash)) ;;
  console_log LStep1 ;;
  wb1 <- fromDataAsync originalBuffer None ;;
  encryptedBuffer <- outputAsync wb1 (Some password) ;;
  let encryptedSize := Z.of_nat (length encryptedBuffer) in
  console_log (LEncryptedSize encryptedSize) ;;
  console_log LStep2 ;;
  wb2 <- fromDataAsync encryptedBuffer (Some password) ;;
  decryptedBuffer <- outputAsync wb2 None ;;
  let decryptedSize := Z.of_nat (length decryptedBuffer) in
  let decryptedHash := hashBuffer decryptedBuffer in
  console_log (LDecrypted decryptedSize (String.substring 0 16 decryptedHash)) ;;
  wb3 <- fromDataAsync originalBuffer None ;;
  passthroughBuffer <- outputAsync wb3 None ;;
  let passthroughSize := Z.of_nat (length passthroughBuffer) in
  let passthroughHash := hashBuffer passthroughBuffer in
  console_log (LPassthrough passthroughSize (String.substring 0 16 passthroughHash)) ;;
  console_log LCompareHeader ;;
  let passVsDecrypt := String.eqb passthroughHash decryptedHash in
  console_log (LPassVsDecrypt passVsDecrypt) ;;
  let sizeDiff := Z.abs (originalSize - decryptedSize) in
  console_log (LSizeDiff sizeDiff originalSize) ;;
  console_log LSheetsHeader ;;
  origWb <- fromDataAsync originalBuffer None ;;
  decWb <- fromDataAsync decryptedBuffer None ;;
  let origSheets := sheetNames origWb in
  let decSheets := sheetNames decWb in
  console_log (LOrigSheets (length origSheets) (String.concat ", " origSheets)) ;;
  console_log (LDecSheets (length decSheets) (String.concat ", " decSheets)) ;;
  console_log (LSheetsMatch (String.eqb (String.concat "," origSheets)
                                        (String.concat "," decSheets))) ;;
  console_log (LVerdict passVsDecrypt).

(** ** Main *)

Definition printUsage : M unit :=
  console_log LUsageTitle ;;
  console_log LUsageEncrypt ;;
  console_log LUsageDecrypt ;;
  console_log LUsageVerify.

(** The body of the [try] block of the batch loop. *)
Definition dispatchBatch (command file password : string) : M unit :=
  if String.eqb command "encrypt" then encryptFile file password
  else if String.eqb command "decrypt" then decryptFile file password
  else if String.eqb command "verify" then verifyFile file password
  else ret tt.

(** [for (const file of files) { try { ...; success++ } catch (e) { ...; fail++ } }],
    with the two counters passed along. *)
Fixpoint forFiles (command password : string) (files : list string)
         (success fail : nat) : M (nat * nat) :=
  match files with
  | [] => ret (success, fail)
  | file :: rest =>
      counters <- try_catch
        (dispatchBatch command file password ;;
         ret (S success, fail))
        (fun msg =>
           console_error (LFileFailed (path_basename file) msg) ;;
           ret (success, S fail)) ;;
      forFiles command password rest (fst counters) (snd counters)
  end.

(** Lines 59-76: the counters, the loop and the final report. *)
Definition processFiles (command password : string) (files : list string) : M unit :=
  counters <- forFiles command password files 0 0 ;;
  console_log (LBatchDone (fst counters) (snd counters)).

(** The directory branch of [main]. *)
Definition directoryMode (command password resolvedPath : string) : M unit :=
  names <- readdirSync resolvedPath ;;
  let files := map (path_join resolvedPath) (List.filter isCandidate names) in
  if (length files =? 0)%nat then
    console_log LNoTargets ;;
    process_exit 0
  else
    console_log (LBatchHeader (length files) (String.eqb command "encrypt")) ;;
    processFiles command password files.

(** The single-file branch of [main]. *)
Definition singleFileMode (command password resolvedPath : string) : M unit :=
  if String.eqb command "encrypt" then encryptFile resolvedPath password
  else if String.eqb command "decrypt" then decryptFile resolvedPath password
  else if String.eqb command "verify" then verifyFile resolvedPath password
  else
    console_error (LUnknownCommand command) ;;
    process_exit 1.

(** [main()], on [process.argv]. *)
Definition main (argv : list string) : M unit :=
  let command := argv !! 2%nat in
  let password := argv !! 3%nat in
  let targetPath := argv !! 4%nat in
  if falsy command || falsy password || falsy targetPath then
    printUsage ;;
    process_exit 1
  else
    let command := default "" command in
    let password := default "" password in
    let targetPath := default "" targetPath in
    let resolvedPath := path_resolve targetPath in
    found <- existsSync resolvedPath ;;
    if negb found then
      console_error (LNotFound resolvedPath) ;;
      process_exit 1
    else
      isDir <- isDirectory resolvedPath ;;
      if isDir : bool then directoryMode command password resolvedPath
      else singleFileMode command password resolvedPath.

(** [main().catch(e => { console.error('エラー:', e.message); process.exit(1) })]:
    the whole program. *)
Definition script (argv : list string) : M unit :=
  try_catch (main argv)
    (fun msg => console_error (LTopLevelError msg) ;; process_exit 1).

(** ** What a run depends on

    The result of loading the file at a path, as a function of the file
    system alone. *)
Definition openFile (fs : FileSystem) (p : string) (pw : option string) : Res Workbook :=
  match content fs p with
  | Val data => fromData data pw
  | Err msg => Err msg
  end.

(** The paths a run on [argv] may touch: the resolved target itself and,
    under it, entries whose name passes the filter. *)
Definition scriptScope (argv : list string) (p : string) : Prop :=
  let target := path_resolve (default "" (argv !! 4%nat)) in
  p = target \/ exists name, isCandidate name = true /\ p = path_join target name.

(** ** The batch pass, as the specification words it

    [batchRun command password files w results w']: starting in [w], every
    file of [files] is processed in order, each from the world the previous
    one left; a file whose processing throws is logged on the error stream
    with its base name and the message, and the pass goes on.  [results]
    pairs each file with [None] (success) or the message of its failure. *)
Inductive batchRun (command password : string) :
  list string -> World -> list (string * option string) -> World -> Prop :=
  | batchRun_nil w :
      batchRun command password [] w [] w
  | batchRun_ok file rest w w1 w2 results :
      dispatchBatch command file password w = (Return tt, w1) ->
      batchRun command password rest w1 results w2 ->
      batchRun command password (file :: rest) w ((file, None) :: results) w2
  | batchRun_fail file rest w msg w1 w2 results :
      dispatchBatch command file password w = (Throw msg, w1) ->
      batchRun command password rest
        (after w1 (EvErr (LFileFailed (path_basename file) msg))) results w2 ->
      batchRun command password (file :: rest) w ((file, Some msg) :: results) w2.

(** * Properties of the script *)

(** ** Running the codec calls *)

Lemma bind_run {A B} (m : M A) (k : A -> M B) (w : World) (r : Outcome A * World) :
  m w = r ->
  bind m k w =
  match r with
  | (Return a, w') => k a w'
  | (Throw msg, w') => (Throw msg, w')
  | (Exit c, w') => (Exit c, w')
  end.
Proof. intros H. unfold bind. now rewrite H. Qed.

Lemma fromFileAsync_run (p : string) (pw : option string) (w : World) :
  fromFileAsync p pw w = (ofRes (openFile (w_fs w) p pw), after w (EvRead p)).
Proof.
  unfold fromFileAsync, bind, readFileSync, fromDataAsync, lift_res, openFile.
  destruct (content (w_fs w) p) as [data|msg]; reflexivity.
Qed.

Lemma toFileAsync_run (wb : Workbook) (p : string) (pw : option string) (w : World) :
  toFileAsync wb p pw w =
  match output wb pw (w_tick w) with
  | Val data =>
      (Return tt,
       mkWorld (written (w_fs w) p data) (w_trace w ++ [EvWrite p data]) (S (w_tick w)))
  | Err msg => (Throw msg, mkWorld (w_fs w) (w_trace w) (S (w_tick w)))
  end.
Proof.
  unfold toFileAsync, bind, outputAsync, writeFile.
  destruct (output wb pw (w_tick w)); reflexivity.
Qed.

(** ** The encryption-state probe *)

Lemma isAlreadyEncrypted_run (filePath password : string) (w : World) :
  isAlreadyEncrypted filePath password w =
  match openFile (w_fs w) filePath None with
  | Val _ => (Return false, after w (EvRead filePath))
  | Err _ =>
      (match openFile (w_fs w) filePath (Some password) with
       | Val _ => Return true
       | Err _ => Throw probe_error
       end,
       after (after w (EvRead filePath)) (EvRead filePath))
  end.
Proof.
  unfold isAlreadyEncrypted, try_catch.
  rewrite (bind_run _ _ _ _ (fromFileAsync_run _ _ _)).
  destruct (openFile (w_fs w) filePath None) as [wb|msg]; [reflexivity|].
  cbn [ofRes].
  rewrite (bind_run _ _ _ _ (fromFileAsync_run _ _ _)).
  cbn [w_fs after].
  destruct (openFile (w_fs w) filePath (Some password)); reflexivity.
Qed.

(** C1. The probe returns [false] exactly when the load without a password
    succeeds, [true] exactly when that load fails and the load with the
    supplied password succeeds, and throws its own error exactly when both
    loads fail; these are its only three outcomes. *)
Theorem isAlreadyEncrypted_spec (filePath password : string) (w : World) :
  let plain := succeeds (fst (fromFileAsync filePath None w)) in
  let keyed := succeeds (fst (fromFileAsync filePath (Some password) w)) in
  let r := fst (isAlreadyEncrypted filePath password w) in
  (r = Return false <-> plain = true) /\
  (r = Return true <-> plain = false /\ keyed = true) /\
  (r = Throw probe_error <-> plain = false /\ keyed = false) /\
  (r = Return false \/ r = Return true \/ r = Throw probe_error).
Proof.
  rewrite isAlreadyEncrypted_run, !fromFileAsync_run. cbn [fst].
  destruct (openFile (w_fs w) filePath None),
    (openFile (w_fs w) filePath (Some password)); cbn;
    repeat split; intros; destruct_and?; try discriminate; auto.
Qed.

(** ** Encrypt and decrypt *)

Lemma encryptFile_run (filePath password : string) (w : World) :
  encryptFile filePath password w =
  let w1 := after (after w (EvRead filePath)) (EvRead filePath) in
  match openFile (w_fs w) filePath None with
  | Val workbook =>
      match output workbook (Some password) (w_tick w) with
      | Val data =>
          (Return tt,
           after (mkWorld (written (w_fs w) filePath data)
                          (w_trace w1 ++ [EvWrite filePath data]) (S (w_tick w)))
                 (EvOut (LEncryptDone (path_basename filePath))))
      | Err msg => (Throw msg, mkWorld (w_fs w) (w_trace w1) (S (w_tick w)))
      end
  | Err _ =>
      match openFile (w_fs w) filePath (Some password) with
      | Val _ => (Return tt, after w1 (EvOut (LEncryptSkipped (path_basename filePath))))
      | Err _ => (Throw probe_error, w1)
      end
  end.
Proof.
  unfold encryptFile.
  rewrite (bind_run _ _ _ _ (isAlreadyEncrypted_run _ _ _)).
  destruct (openFile (w_fs w) filePath None) as [workbook|msg] eqn:Hplain.
  - rewrite (bind_run _ _ _ _ (fromFileAsync_run _ _ _)).
    cbn [w_fs after]. rewrite Hplain. cbn [ofRes].
    rewrite (bind_run _ _ _ _ (toFileAsync_run _ _ _ _)).
    cbn [w_tick after].
    destruct (output workbook (Some password) (w_tick w)); reflexivity.
  - destruct (openFile (w_fs w) filePath (Some password)); reflexivity.
Qed.

Lemma decryptFile_run (filePath password : string) (w : World) :
  decryptFile filePath password w =
  let w1 := after (after w (EvRead filePath)) (EvRead filePath) in
  match openFile (w_fs w) filePath None with
  | Val _ =>
      (Return tt,
       after (after w (EvRead filePath))
             (EvOut (LDecryptSkipped (path_basename filePath))))
  | Err _ =>
      match openFile (w_fs w) filePath (Some password) with
      | Val workbook =>
          let w2 := after w1 (EvRead filePath) in
          match output workbook None (w_tick w) with
          | Val data =>
              (Return tt,
               after (mkWorld (written (w_fs w) filePath data)
                              (w_trace w2 ++ [EvWrite filePath data]) (S (w_tick w)))
                     (EvOut (LDecryptDone (path_basename filePath))))
          | Err msg => (Throw msg, mkWorld (w_fs w) (w_trace w2) (S (w_tick w)))
          end
      | Err _ => (Throw probe_error, w1)
      end
  end.
Proof.
  unfold decryptFile.
  rewrite (bind_run _ _ _ _ (isAlreadyEncrypted_run _ _ _)).
  destruct (openFile (w_fs w) filePath None) as [wb0|msg0]; [reflexivity|].
  destruct (openFile (w_fs w) filePath (Some password)) as [workbook|msg] eqn:Hkeyed;
    [|reflexivity].
  cbn [negb].
  rewrite (bind_run _ _ _ _ (fromFileAsync_run _ _ _)).
  cbn [w_fs after]. rewrite Hkeyed. cbn [ofRes].
  rewrite (bind_run _ _ _ _ (toFileAsync_run _ _ _ _)).
  cbn [w_tick after].
  destruct (output workbook None (w_tick w)); reflexivity.
Qed.

Lemma openFile_written (fs : FileSystem) (p : string) (data : Buffer) (pw : option string) :
  openFile (written fs p data) p pw = fromData data pw.
Proof. unfold openFile, content, written. cbn. now rewrite lookup_insert_eq. Qed.

(** C2. Encrypting a file the probe reports protected only logs the skip
    and returns: nothing is serialised or written.  Decrypting a file the
    probe reports unprotected does likewise.  Hence, with a codec whose
    password-protected output does not open without a password, two
    encrypt runs in a row write the file at most once, and after a first
    run that returned the second leaves the file system as it found it. *)
Theorem encrypt_decrypt_idempotent (filePath password : string) (w : World) :
  (fst (isAlreadyEncrypted filePath password w) = Return true ->
   encryptFile filePath password w =
   (Return tt,
    mkWorld (w_fs w)
      (w_trace w ++ [EvRead filePath; EvRead filePath;
                     EvOut (LEncryptSkipped (path_basename filePath))])
      (w_tick w))) /\
  (fst (isAlreadyEncrypted filePath password w) = Return false ->
   decryptFile filePath password w =
   (Return tt,
    mkWorld (w_fs w)
      (w_trace w ++ [EvRead filePath;
                     EvOut (LDecryptSkipped (path_basename filePath))])
      (w_tick w))) /\
  ((forall wb t data,
      output wb (Some password) t = Val data -> is_val (fromData data None) = false) ->
   let r1 := encryptFile filePath password w in
   let r2 := encryptFile filePath password (snd r1) in
   (exists evs,
      w_trace (snd r2) = w_trace w ++ evs /\
      (length (List.filter isWrite evs) <= 1)%nat) /\
   (fst r1 = Return tt -> w_fs (snd r2) = w_fs (snd r1))).
Proof.
  split; [|split].
  - rewrite isAlreadyEncrypted_run, encryptFile_run. cbn zeta.
    destruct (openFile (w_fs w) filePath None); [discriminate|].
    destruct (openFile (w_fs w) filePath (Some password)); [|discriminate].
    intros _. unfold after. cbn. now rewrite <- !app_assoc.
  - rewrite isAlreadyEncrypted_run, decryptFile_run. cbn zeta.
    destruct (openFile (w_fs w) filePath None).
    + intros _. unfold after. cbn. now rewrite <- !app_assoc.
    + destruct (openFile (w_fs w) filePath (Some password)); discriminate.
  - intros Hcodec. cbn zeta.
    rewrite (encryptFile_run filePath password w). cbn zeta.
    destruct (openFile (w_fs w) filePath None) as [wb|msg] eqn:Hplain.
    + destruct (output wb (Some password) (w_tick w)) as [data|msg] eqn:Hout.
      * cbn [snd fst]. rewrite encryptFile_run. cbn zeta. cbn [w_fs after].
        rewrite openFile_written.
        pose proof (Hcodec _ _ _ Hout) as Hclosed.
        destruct (fromData data None); [discriminate|].
        rewrite openFile_written.
        destruct (fromData data (Some password)); cbn; split; try reflexivity;
          eexists; (split; [rewrite <- !app_assoc; reflexivity | cbn; lia]).
      * cbn [snd fst]. rewrite encryptFile_run. cbn zeta. cbn [w_fs w_tick].
        rewrite Hplain. split; [|discriminate].
        destruct (output wb (Some password) (S (w_tick w))); cbn;
          eexists; (split; [rewrite <- !app_assoc; reflexivity | cbn; lia]).
    + destruct (openFile (w_fs w) filePath (Some password)) as [wb|msg2] eqn:Hkeyed;
        cbn [snd fst]; rewrite encryptFile_run; cbn zeta; cbn [w_fs after];
        rewrite Hplain, Hkeyed; cbn; (split; [|reflexivity]);
        eexists; (split; [rewrite <- !app_assoc; reflexivity | cbn; lia]).
Qed.

(** ** Verify *)

Lemma bind_console_log {B} (l : Line) (k : unit -> M B) (w : World) :
  bind (console_log l) k w = k tt (after w (EvOut l)).
Proof. reflexivity. Qed.

Lemma bind_console_error {B} (l : Line) (k : unit -> M B) (w : World) :
  bind (console_error l) k w = k tt (after w (EvErr l)).
Proof. reflexivity. Qed.

Lemma bind_readFileSync {B} (p : string) (k : Buffer -> M B) (w : World) :
  bind (readFileSync p) k w =
  match content (w_fs w) p with
  | Val data => k data (after w (EvRead p))
  | Err msg => (Throw msg, after w (EvRead p))
  end.
Proof. unfold bind, readFileSync. destruct (content (w_fs w) p); reflexivity. Qed.

Lemma bind_fromDataAsync {B} (data : Buffer) (pw : option string)
      (k : Workbook -> M B) (w : World) :
  bind (fromDataAsync data pw) k w =
  match fromData data pw with
  | Val wb => k wb w
  | Err msg => (Throw msg, w)
  end.
Proof. unfold bind, fromDataAsync, lift_res. destruct (fromData data pw); reflexivity. Qed.

Lemma bind_outputAsync {B} (wb : Workbook) (pw : option string)
      (k : Buffer -> M B) (w : World) :
  bind (outputAsync wb pw) k w =
  match output wb pw (w_tick w) with
  | Val data => k data (mkWorld (w_fs w) (w_trace w) (S (w_tick w)))
  | Err msg => (Throw msg, mkWorld (w_fs w) (w_trace w) (S (w_tick w)))
  end.
Proof. unfold bind, outputAsync. destruct (output wb pw (w_tick w)); reflexivity. Qed.

(** One step of a run: the first call of a sequence is replaced by its
    effect, and a call into a library is split into its two results. *)
Ltac run_step :=
  first
    [ rewrite bind_console_log
    | rewrite bind_readFileSync
    | rewrite bind_fromDataAsync
    | rewrite bind_outputAsync ];
  cbn [w_fs w_tick w_trace after];
  try match goal with
      | H : ?r = _ |- context [match ?r with Val _ => _ | Err _ => _ end] =>
          rewrite H
      | |- context [match ?r with Val _ => _ | Err _ => _ end] =>
          let H := fresh "Hcall" in destruct r eqn:H
      end.

Ltac run_all := repeat (run_step; try (intros ?; discriminate)).

(** Two worlds that differ only in how their traces are bracketed. *)
Ltac same_world :=
  unfold addEvents, after; cbn [w_fs w_trace w_tick];
  rewrite <- ?app_assoc; reflexivity.

(** C6. When verify runs to its end, the line it prints last is the
    verdict, and the verdict is the equality of the hash of the passthrough
    buffer and the hash of the decrypted buffer, nothing else: neither the
    original bytes, nor the sizes, nor the sheet names enter it. *)
Theorem verifyFile_verdict (filePath password : string) (w w' : World) :
  verifyFile filePath password w = (Return tt, w') ->
  exists original wb encrypted wb2 decrypted passthrough,
    content (w_fs w) filePath = Val original /\
    fromData original None = Val wb /\
    output wb (Some password) (w_tick w) = Val encrypted /\
    fromData encrypted (Some password) = Val wb2 /\
    output wb2 None (S (w_tick w)) = Val decrypted /\
    output wb None (S (S (w_tick w))) = Val passthrough /\
    last (w_trace w') =
    Some (EvOut (LVerdict (String.eqb (hashBuffer passthrough) (hashBuffer decrypted)))).
Proof.
  unfold verifyFile. cbn zeta. run_all.
  intros Hrun. injection Hrun as <-.
  repeat eexists; eauto.
  cbn [w_trace after]. apply last_snoc.
Qed.

(** Verify does run to its end when every call into the codec succeeds. *)
Lemma verifyFile_returns (filePath password : string) (w : World)
      original wb encrypted wb2 decrypted passthrough decWb :
  content (w_fs w) filePath = Val original ->
  fromData original None = Val wb ->
  output wb (Some password) (w_tick w) = Val encrypted ->
  fromData encrypted (Some password) = Val wb2 ->
  output wb2 None (S (w_tick w)) = Val decrypted ->
  output wb None (S (S (w_tick w))) = Val passthrough ->
  fromData decrypted None = Val decWb ->
  fst (verifyFile filePath password w) = Return tt.
Proof.
  intros H1 H2 H3 H4 H5 H6 H7.
  unfold verifyFile. cbn zeta. run_all. reflexivity.
Qed.

Lemma verifyFile_no_exit (filePath password : string) (w : World) (c : Z) :
  fst (verifyFile filePath password w) <> Exit c.
Proof. unfold verifyFile. cbn zeta. run_all; discriminate. Qed.

(** C7. Verify leaves the file system exactly as it found it; of the
    events it adds, the only one that touches a file is the single read of
    the target, and none is a write. *)
Theorem verifyFile_readonly (filePath password : string) (w : World) :
  let w' := snd (verifyFile filePath password w) in
  w_fs w' = w_fs w /\
  exists evs,
    w_trace w' = w_trace w ++ evs /\
    List.filter isFileAccess evs = [EvRead filePath] /\
    List.filter isWrite evs = [].
Proof.
  unfold verifyFile. cbn zeta. run_all.
  all: unfold console_log, emit, after; cbn [snd w_fs w_trace].
  all: split; [reflexivity|]; eexists; split;
    [rewrite <- ?app_assoc; reflexivity | split; reflexivity].
Qed.

(** ** The batch driver *)

Lemma dispatchBatch_outcome (command file password : string) (w : World) :
  exists w',
    dispatchBatch command file password w = (Return tt, w') \/
    exists msg, dispatchBatch command file password w = (Throw msg, w').
Proof.
  unfold dispatchBatch.
  destruct (String.eqb command "encrypt").
  { rewrite encryptFile_run. cbn zeta.
    destruct (openFile (w_fs w) file None) as [wb|];
      [destruct (output wb (Some password) (w_tick w))
      |destruct (openFile (w_fs w) file (Some password))]; eauto. }
  destruct (String.eqb command "decrypt").
  { rewrite decryptFile_run. cbn zeta.
    destruct (openFile (w_fs w) file None);
      [|destruct (openFile (w_fs w) file (Some password)) as [wb|];
        [destruct (output wb None (w_tick w))|]]; eauto. }
  destruct (String.eqb command "verify").
  { pose proof (verifyFile_no_exit file password w) as Hexit.
    destruct (verifyFile file password w) as [[[]|msg|c] w']; eauto.
    now destruct (Hexit c). }
  eauto.
Qed.

Lemma countFailed_le (results : list (string * option string)) :
  (countFailed results <= length results)%nat.
Proof. unfold countFailed. apply List.filter_length_le. Qed.

(** The loop refines [batchRun]: it visits the files in order, never stops
    early, and moves exactly one counter per file. *)
Lemma forFiles_run (command password : string) (files : list string) :
  forall (success fail : nat) (w : World),
  exists results w',
    batchRun command password files w results w' /\
    map fst results = files /\
    forFiles command password files success fail w =
    (Return ((success + (length files - countFailed results))%nat,
             (fail + countFailed results)%nat), w').
Proof.
  induction files as [|file rest IH]; intros success fail w.
  - exists [], w. repeat split; [constructor|].
    cbn. unfold ret. do 3 f_equal; lia.
  - destruct (dispatchBatch_outcome command file password w) as [w1 [Hok|[msg Hko]]].
    + destruct (IH (S success) fail w1) as (results & w' & Hrun & Hfiles & Hloop).
      exists ((file, None) :: results), w'.
      split; [eapply batchRun_ok; eauto|].
      split; [cbn; now rewrite Hfiles|].
      cbn [forFiles]. unfold bind at 1, try_catch, bind at 1. rewrite Hok.
      cbn [ret fst snd]. rewrite Hloop.
      pose proof (countFailed_le results) as Hle.
      assert (Hlen : length rest = length results)
        by (rewrite <- Hfiles; apply length_map).
      replace (countFailed ((file, None) :: results)) with (countFailed results)
        by reflexivity.
      cbn [length]. do 3 f_equal; lia.
    + destruct (IH success (S fail)
                   (after w1 (EvErr (LFileFailed (path_basename file) msg))))
        as (results & w' & Hrun & Hfiles & Hloop).
      exists ((file, Some msg) :: results), w'.
      split; [eapply batchRun_fail; eauto|].
      split; [cbn; now rewrite Hfiles|].
      cbn [forFiles]. unfold bind at 1, try_catch, bind at 1. rewrite Hko.
      rewrite bind_console_error. cbn [ret fst snd]. rewrite Hloop.
      pose proof (countFailed_le results) as Hle.
      assert (Hlen : length rest = length results)
        by (rewrite <- Hfiles; apply length_map).
      replace (countFailed ((file, Some msg) :: results)) with (S (countFailed results))
        by reflexivity.
      cbn [length]. do 3 f_equal; lia.
Qed.

(** ** Main *)

Lemma falsy_Some (s : string) : s <> "" -> falsy (Some s) = false.
Proof. intros H. now apply String.eqb_neq. Qed.

Lemma main_usage (argv : list string) (w : World) :
  falsy (argv !! 2%nat) || falsy (argv !! 3%nat) || falsy (argv !! 4%nat) = true ->
  main argv w = (Exit 1, addEvents w usageLines).
Proof.
  intros H. unfold main. rewrite H.
  unfold printUsage, bind, console_log, emit, process_exit. cbn.
  f_equal. same_world.
Qed.

Lemma main_resolved (node scriptPath command password target : string)
      (rest : list string) (w : World) :
  command <> "" -> password <> "" -> target <> "" ->
  main (node :: scriptPath :: command :: password :: target :: rest) w =
  let p := path_resolve target in
  if pathExists (w_fs w) p then
    if pathIsDirectory (w_fs w) p then
      directoryMode command password p (addEvents w [EvExists p; EvStat p])
    else
      singleFileMode command password p (addEvents w [EvExists p; EvStat p])
  else (Exit 1, addEvents w [EvExists p; EvErr (LNotFound p)]).
Proof.
  intros Hc Hp Ht. unfold main. cbn [lookup list_lookup].
  rewrite !falsy_Some by assumption. cbn [orb default id].
  unfold bind at 1, existsSync.
  destruct (pathExists (w_fs w) (path_resolve target)); cbn [negb].
  - unfold bind at 1, isDirectory. cbn [w_fs after].
    assert (Hw : after (after w (EvExists (path_resolve target)))
                       (EvStat (path_resolve target)) =
                 addEvents w [EvExists (path_resolve target);
                              EvStat (path_resolve target)]) by same_world.
    rewrite Hw.
    now destruct (pathIsDirectory (w_fs w) (path_resolve target)).
  - rewrite bind_console_error. unfold process_exit. f_equal. same_world.
Qed.

Lemma directoryMode_run (command password p : string) (names : list string) (w : World) :
  fs_dirs (w_fs w) !! p = Some names ->
  directoryMode command password p w =
  let files := map (path_join p) (List.filter isCandidate names) in
  match files with
  | [] => (Exit 0, addEvents w [EvReaddir p; EvOut LNoTargets])
  | _ :: _ =>
      processFiles command password files
        (addEvents w [EvReaddir p;
                      EvOut (LBatchHeader (length files) (String.eqb command "encrypt"))])
  end.
Proof.
  intros Hdir. unfold directoryMode, bind at 1, readdirSync, listing.
  rewrite Hdir. cbn [ofRes]. cbn zeta.
  destruct (map (path_join p) (List.filter isCandidate names)) as [|file files].
  - cbn [length Nat.eqb]. rewrite bind_console_log. unfold process_exit.
    f_equal. same_world.
  - cbn [length Nat.eqb]. rewrite bind_console_log. f_equal. same_world.
Qed.

Lemma script_of_main (argv : list string) (w w' : World) (o : Outcome unit) :
  main argv w = (o, w') ->
  (forall msg, o <> Throw msg) ->
  script argv w = (o, w').
Proof.
  intros Hmain Hno. unfold script, try_catch. rewrite Hmain.
  destruct o as [[]|msg|c]; try reflexivity. now destruct (Hno msg).
Qed.

Lemma directory_exists (fs : FileSystem) (p : string) (names : list string) :
  fs_dirs fs !! p = Some names ->
  pathExists fs p = true /\ pathIsDirectory fs p = true.
Proof.
  intros H. unfold pathExists, pathIsDirectory. rewrite H.
  rewrite (bool_decide_eq_true_2 (is_Some (Some names))) by eauto.
  now rewrite orb_true_r.
Qed.

Lemma processFiles_run (command password : string) (files : list string) (w : World) :
  exists results w',
    batchRun command password files w results w' /\
    map fst results = files /\
    processFiles command password files w =
    (Return tt,
     after w' (EvOut (LBatchDone (length files - countFailed results)
                                 (countFailed results)))).
Proof.
  destruct (forFiles_run command password files 0 0 w)
    as (results & w' & Hrun & Hfiles & Hloop).
  exists results, w'. repeat split; try assumption.
  unfold processFiles. rewrite (bind_run _ _ _ _ Hloop). reflexivity.
Qed.

(** C3. The loop and its report: every candidate is processed, in the
    order of the list and whatever happened to the earlier ones; a failure
    is caught and logged with the base name and the message; with M
    failures among N files the report shows N - M successes and M
    failures.  In directory mode the candidates are the filtered listing
    and the report is the last thing the run prints. *)
Theorem batch_report (command password : string) :
  (forall (files : list string) (w : World),
   exists results w',
     batchRun command password files w results w' /\
     map fst results = files /\
     processFiles command password files w =
     (Return tt,
      after w' (EvOut (LBatchDone (length files - countFailed results)
                                  (countFailed results))))) /\
  (forall (node scriptPath target : string) (rest names : list string) (w : World),
     command <> "" -> password <> "" -> target <> "" ->
     fs_dirs (w_fs w) !! path_resolve target = Some names ->
     let dir := path_resolve target in
     let files := map (path_join dir) (List.filter isCandidate names) in
     files <> [] ->
     exists results w',
       batchRun command password files
         (addEvents w [EvExists dir; EvStat dir; EvReaddir dir;
                       EvOut (LBatchHeader (length files)
                                           (String.eqb command "encrypt"))])
         results w' /\
       map fst results = files /\
       script (node :: scriptPath :: command :: password :: target :: rest) w =
       (Return tt,
        after w' (EvOut (LBatchDone (length files - countFailed results)
                                    (countFailed results))))).
Proof.
  split; [apply processFiles_run|].
  intros node scriptPath target rest names w Hc Hp Ht Hdir dir files Hne.
  destruct (directory_exists _ _ _ Hdir) as [Hex Hisdir].
  set (w0 := addEvents w [EvExists dir; EvStat dir; EvReaddir dir;
                          EvOut (LBatchHeader (length files)
                                              (String.eqb command "encrypt"))]).
  destruct (processFiles_run command password files w0)
    as (results & w' & Hrun & Hfiles & Hreport).
  exists results, w'. repeat split; try assumption.
  apply script_of_main; [|discriminate].
  rewrite main_resolved by assumption. cbn zeta.
  rewrite Hex, Hisdir.
  rewrite (directoryMode_run _ _ _ names) by exact Hdir. cbn zeta.
  fold dir. fold files. destruct files as [|file files']; [now destruct Hne|].
  rewrite <- Hreport. f_equal. subst w0. same_world.
Qed.

Lemma noFileTouched_addEvents (w : World) (evs : list Event) :
  List.filter isFileAccess evs = [] -> noFileTouched w (addEvents w evs).
Proof. intros H. split; [reflexivity|]. now exists evs. Qed.

Lemma singleFileMode_unknown (command password p : string) (w : World) :
  command <> "encrypt" -> command <> "decrypt" -> command <> "verify" ->
  singleFileMode command password p w =
  (Exit 1, after w (EvErr (LUnknownCommand command))).
Proof.
  intros He Hd Hv. unfold singleFileMode.
  apply String.eqb_neq in He, Hd, Hv. now rewrite He, Hd, Hv.
Qed.

(** C8. With a token missing the run prints the usage; with a target that
    does not exist it prints the not-found error; with an unknown command
    and a target that is not a directory it prints the unknown-command
    error.  Each time the process exits with status 1, and no file has been
    read, written or created: the file system is unchanged and the trace
    holds nothing but the lines and the existence and type checks. *)
Theorem usage_errors (argv : list string) (w : World) :
  let r := script argv w in
  (argv !! 2%nat = None \/ argv !! 3%nat = None \/ argv !! 4%nat = None ->
   r = (Exit 1, addEvents w usageLines) /\ noFileTouched w (snd r)) /\
  (forall node scriptPath command password target rest,
     argv = node :: scriptPath :: command :: password :: target :: rest ->
     command <> "" -> password <> "" -> target <> "" ->
     let p := path_resolve target in
     (pathExists (w_fs w) p = false ->
      r = (Exit 1, addEvents w [EvExists p; EvErr (LNotFound p)]) /\
      noFileTouched w (snd r)) /\
     (pathExists (w_fs w) p = true -> pathIsDirectory (w_fs w) p = false ->
      command <> "encrypt" -> command <> "decrypt" -> command <> "verify" ->
      r = (Exit 1, addEvents w [EvExists p; EvStat p; EvErr (LUnknownCommand command)]) /\
      noFileTouched w (snd r))).
Proof.
  cbn zeta. split.
  - intros Hmissing.
    assert (Hrun : script argv w = (Exit 1, addEvents w usageLines)).
    { apply script_of_main; [|discriminate]. apply main_usage.
      destruct Hmissing as [-> | [-> | ->]]; cbn [falsy];
        rewrite ?orb_true_r; reflexivity. }
    rewrite Hrun. split; [reflexivity|].
    now apply noFileTouched_addEvents.
  - intros node scriptPath command password target rest -> Hc Hp Ht. split.
    + intros Hex.
      assert (Hrun : script (node :: scriptPath :: command :: password :: target :: rest) w =
                     (Exit 1, addEvents w [EvExists (path_resolve target);
                                           EvErr (LNotFound (path_resolve target))])).
      { apply script_of_main; [|discriminate].
        rewrite main_resolved by assumption. cbn zeta. now rewrite Hex. }
      rewrite Hrun. split; [reflexivity|].
      now apply noFileTouched_addEvents.
    + intros Hex Hfile He Hd Hv.
      assert (Hrun : script (node :: scriptPath :: command :: password :: target :: rest) w =
                     (Exit 1, addEvents w [EvExists (path_resolve target);
                                           EvStat (path_resolve target);
                                           EvErr (LUnknownCommand command)])).
      { apply script_of_main; [|discriminate].
        rewrite main_resolved by assumption. cbn zeta. rewrite Hex, Hfile.
        rewrite singleFileMode_unknown by assumption. f_equal. same_world. }
      rewrite Hrun. split; [reflexivity|].
      now apply noFileTouched_addEvents.
Qed.

(** C9. In directory mode, when no entry of the listing passes the filter,
    the run prints that no target file was found and exits with status 0;
    it lists the directory and touches no file. *)
Theorem no_candidates (node scriptPath command password target : string)
        (rest names : list string) (w : World) :
  command <> "" -> password <> "" -> target <> "" ->
  fs_dirs (w_fs w) !! path_resolve target = Some names ->
  List.filter isCandidate names = [] ->
  let dir := path_resolve target in
  let r := script (node :: scriptPath :: command :: password :: target :: rest) w in
  r = (Exit 0, addEvents w [EvExists dir; EvStat dir; EvReaddir dir; EvOut LNoTargets]) /\
  noFileTouched w (snd r).
Proof.
  intros Hc Hp Ht Hdir Hnone. cbn zeta.
  destruct (directory_exists _ _ _ Hdir) as [Hex Hisdir].
  assert (Hrun : script (node :: scriptPath :: command :: password :: target :: rest) w =
                 (Exit 0, addEvents w [EvExists (path_resolve target);
                                       EvStat (path_resolve target);
                                       EvReaddir (path_resolve target);
                                       EvOut LNoTargets])).
  { apply script_of_main; [|discriminate].
    rewrite main_resolved by assumption. cbn zeta. rewrite Hex, Hisdir.
    rewrite (directoryMode_run _ _ _ names) by exact Hdir. cbn zeta.
    rewrite Hnone. cbn [map]. f_equal. same_world. }
  rewrite Hrun. split; [reflexivity|].
  now apply noFileTouched_addEvents.
Qed.

(** C10. An empty password is falsy, so the run is the one of an
    invocation without a password: usage, exit status 1, and nothing else;
    in particular the target is never looked at. *)
Theorem empty_password_is_missing (node scriptPath command target : string)
        (rest : list string) (w : World) :
  script (node :: scriptPath :: command :: "" :: target :: rest) w =
  (Exit 1, addEvents w usageLines) /\
  script (node :: scriptPath :: command :: "" :: target :: rest) w =
  script [node; scriptPath; command] w.
Proof.
  assert (H1 : script (node :: scriptPath :: command :: "" :: target :: rest) w =
               (Exit 1, addEvents w usageLines)).
  { apply script_of_main; [|discriminate]. apply main_usage.
    cbn [lookup list_lookup falsy String.eqb]. now rewrite orb_true_r. }
  assert (H2 : script [node; scriptPath; command] w =
               (Exit 1, addEvents w usageLines)).
  { apply script_of_main; [|discriminate]. apply main_usage.
    cbn [lookup list_lookup falsy]. now rewrite orb_true_r. }
  split; [exact H1 | now rewrite H1, H2].
Qed.

(** C4, as the code has it.  A command other than the three known ones is
    not rejected in directory mode, but it is not treated as verify either:
    the dispatch matches no branch, so no operation runs and no file is
    touched, and every candidate is counted as a success. *)
Theorem unknown_command_batch (command password : string) :
  command <> "encrypt" -> command <> "decrypt" -> command <> "verify" ->
  (forall file w, dispatchBatch command file password w = (Return tt, w)) /\
  (forall files w,
     processFiles command password files w =
     (Return tt, after w (EvOut (LBatchDone (length files) 0)))) /\
  (forall (node scriptPath target : string) (rest names : list string) (w : World),
     command <> "" -> password <> "" -> target <> "" ->
     fs_dirs (w_fs w) !! path_resolve target = Some names ->
     let dir := path_resolve target in
     let files := map (path_join dir) (List.filter isCandidate names) in
     files <> [] ->
     let r := script (node :: scriptPath :: command :: password :: target :: rest) w in
     r = (Return tt,
          addEvents w [EvExists dir; EvStat dir; EvReaddir dir;
                       EvOut (LBatchHeader (length files) false);
                       EvOut (LBatchDone (length files) 0)]) /\
     noFileTouched w (snd r)).
Proof.
  intros He Hd Hv.
  assert (Hdispatch : forall file w, dispatchBatch command file password w = (Return tt, w)).
  { intros file w. unfold dispatchBatch.
    apply String.eqb_neq in He, Hd, Hv. now rewrite He, Hd, Hv. }
  assert (Hloop : forall files success fail w,
            forFiles command password files success fail w =
            (Return ((success + length files)%nat, fail), w)).
  { induction files as [|file files IH]; intros success fail w.
    - cbn. unfold ret. do 3 f_equal. lia.
    - cbn [forFiles]. unfold bind at 1, try_catch, bind at 1.
      rewrite Hdispatch. cbn [ret fst snd]. rewrite IH.
      cbn [length]. do 3 f_equal. lia. }
  assert (Hreport : forall files w,
            processFiles command password files w =
            (Return tt, after w (EvOut (LBatchDone (length files) 0)))).
  { intros files w. unfold processFiles.
    rewrite (bind_run _ _ _ _ (Hloop files 0%nat 0%nat w)). reflexivity. }
  split; [exact Hdispatch|]. split; [exact Hreport|].
  intros node scriptPath target rest names w Hc Hp Ht Hdir dir files Hne.
  destruct (directory_exists _ _ _ Hdir) as [Hex Hisdir].
  assert (Hrun : script (node :: scriptPath :: command :: password :: target :: rest) w =
                 (Return tt,
                  addEvents w [EvExists dir; EvStat dir; EvReaddir dir;
                               EvOut (LBatchHeader (length files) false);
                               EvOut (LBatchDone (length files) 0)])).
  { apply script_of_main; [|discriminate].
    rewrite main_resolved by assumption. cbn zeta. rewrite Hex, Hisdir.
    rewrite (directoryMode_run _ _ _ names) by exact Hdir. cbn zeta.
    fold dir. fold files. destruct files as [|file files']; [now destruct Hne|].
    rewrite Hreport. apply String.eqb_neq in He. rewrite He.
    f_equal. same_world. }
  cbn zeta. rewrite Hrun. split; [reflexivity|].
  now apply noFileTouched_addEvents.
Qed.

(** * Further properties of the script *)

(** ** Footprints of the primitives *)

Lemma touchesOnly_refl (P : string -> Prop) (w : World) : touchesOnly P w w.
Proof.
  repeat split; auto. exists []. split; [now rewrite app_nil_r | constructor].
Qed.

Lemma touchesOnly_trans (P : string -> Prop) (w1 w2 w3 : World) :
  touchesOnly P w1 w2 -> touchesOnly P w2 w3 -> touchesOnly P w1 w3.
Proof.
  intros (Hd1 & He1 & Hf1 & evs1 & Ht1 & Hp1) (Hd2 & He2 & Hf2 & evs2 & Ht2 & Hp2).
  split; [congruence|]. split; [intros p; now rewrite He2|].
  split; [intros p Hp; now rewrite Hf2, Hf1|].
  exists (evs1 ++ evs2). split.
  - now rewrite Ht2, Ht1, app_assoc.
  - now apply Forall_app.
Qed.

Lemma touchesOnly_mono (P Q : string -> Prop) (w w' : World) :
  (forall p, P p -> Q p) -> touchesOnly P w w' -> touchesOnly Q w w'.
Proof.
  intros HPQ (Hd & He & Hf & evs & Ht & Hp).
  repeat split; auto; try apply He.
  exists evs. split; [assumption|].
  eapply Forall_impl; [exact Hp|]. cbn. eauto.
Qed.

(** A step that leaves the file system alone. *)
Lemma touchesOnly_events (P : string -> Prop) (w w' : World) (evs : list Event) :
  w_fs w' = w_fs w ->
  w_trace w' = w_trace w ++ evs ->
  Forall (fun e => forall p, eventPath e = Some p -> P p) evs ->
  touchesOnly P w w'.
Proof.
  intros Hfs Ht Hp. unfold touchesOnly. rewrite Hfs.
  repeat split; auto. now exists evs.
Qed.

(** A step that overwrites a file that exists, at a path in [P]. *)
Lemma touchesOnly_written (P : string -> Prop) (w w' : World) (p : string)
      (data : Buffer) (evs : list Event) :
  P p ->
  is_Some (fs_files (w_fs w) !! p) ->
  w_fs w' = written (w_fs w) p data ->
  w_trace w' = w_trace w ++ evs ->
  Forall (fun e => forall q, eventPath e = Some q -> P q) evs ->
  touchesOnly P w w'.
Proof.
  intros HP Hex Hfs Ht Hevs. unfold touchesOnly. rewrite Hfs. unfold written. cbn.
  split; [reflexivity|]. split; [|split].
  - intros q. destruct (decide (p = q)) as [<-|Hne].
    + rewrite lookup_insert_eq. split; eauto.
    + now rewrite lookup_insert_ne.
  - intros q Hq. rewrite lookup_insert_ne; [reflexivity|]. now intros <-.
  - now exists evs.
Qed.

Lemma confined_mono {A} (P Q : string -> Prop) (E F : Z -> Prop) (m : M A) :
  (forall p, P p -> Q p) -> (forall c, E c -> F c) ->
  confined P E m -> confined Q F m.
Proof.
  intros HPQ HEF Hm w. destruct (Hm w) as [Ht He].
  split; [eapply touchesOnly_mono; eauto | eauto].
Qed.

Lemma confined_ret {A} (P : string -> Prop) (E : Z -> Prop) (a : A) :
  confined P E (ret a).
Proof. intros w. split; [apply touchesOnly_refl | discriminate]. Qed.

Lemma confined_throw {A} (P : string -> Prop) (E : Z -> Prop) (msg : string) :
  confined P E (@throw A msg).
Proof. intros w. split; [apply touchesOnly_refl | discriminate]. Qed.

Lemma confined_exit {A} (P : string -> Prop) (E : Z -> Prop) (c : Z) :
  E c -> confined P E (@process_exit A c).
Proof.
  intros Hc w. split; [apply touchesOnly_refl|].
  cbn. intros c' [= <-]. exact Hc.
Qed.

Lemma confined_bind {A B} (P : string -> Prop) (E : Z -> Prop)
      (m : M A) (k : A -> M B) :
  confined P E m -> (forall a, confined P E (k a)) -> confined P E (bind m k).
Proof.
  intros Hm Hk w. unfold bind. destruct (Hm w) as [Ht He].
  destruct (m w) as [[a|msg|c] w1]; cbn in *.
  - destruct (Hk a w1) as [Ht' He']. split; [|exact He'].
    eapply touchesOnly_trans; eauto.
  - split; [exact Ht | discriminate].
  - split; [exact Ht|]. intros c' [= <-]. now apply He.
Qed.

Lemma confined_try_catch {A} (P : string -> Prop) (E : Z -> Prop)
      (m : M A) (h : string -> M A) :
  confined P E m -> (forall msg, confined P E (h msg)) -> confined P E (try_catch m h).
Proof.
  intros Hm Hh w. unfold try_catch. destruct (Hm w) as [Ht He].
  destruct (m w) as [[a|msg|c] w1]; cbn in *.
  - split; [exact Ht | discriminate].
  - destruct (Hh msg w1) as [Ht' He']. split; [|exact He'].
    eapply touchesOnly_trans; eauto.
  - split; [exact Ht | exact He].
Qed.

Lemma confined_emit (P : string -> Prop) (E : Z -> Prop) (e : Event) :
  (forall p, eventPath e = Some p -> P p) -> confined P E (emit e).
Proof.
  intros He w. split; [|discriminate].
  apply (touchesOnly_events P w _ [e]); [reflexivity | reflexivity |].
  now repeat constructor.
Qed.

Lemma confined_console_log (P : string -> Prop) (E : Z -> Prop) (l : Line) :
  confined P E (console_log l).
Proof. apply confined_emit. discriminate. Qed.

Lemma confined_console_error (P : string -> Prop) (E : Z -> Prop) (l : Line) :
  confined P E (console_error l).
Proof. apply confined_emit. discriminate. Qed.

Lemma confined_existsSync (P : string -> Prop) (E : Z -> Prop) (p : string) :
  confined P E (existsSync p).
Proof.
  intros w. split; [|discriminate].
  apply (touchesOnly_events P w _ [EvExists p]); [reflexivity | reflexivity |].
  repeat constructor. discriminate.
Qed.

Lemma confined_isDirectory (P : string -> Prop) (E : Z -> Prop) (p : string) :
  confined P E (isDirectory p).
Proof.
  intros w. split; [|discriminate].
  apply (touchesOnly_events P w _ [EvStat p]); [reflexivity | reflexivity |].
  repeat constructor. discriminate.
Qed.

Lemma confined_readdirSync (P : string -> Prop) (E : Z -> Prop) (p : string) :
  confined P E (readdirSync p).
Proof.
  intros w. split.
  - apply (touchesOnly_events P w _ [EvReaddir p]); [reflexivity | reflexivity |].
    repeat constructor. discriminate.
  - unfold readdirSync. cbn. destruct (listing (w_fs w) p); discriminate.
Qed.

Lemma confined_readFileSync (P : string -> Prop) (E : Z -> Prop) (p : string) :
  P p -> confined P E (readFileSync p).
Proof.
  intros HP w. split.
  - apply (touchesOnly_events P w _ [EvRead p]); [reflexivity | reflexivity |].
    repeat constructor. cbn. now intros q [= <-].
  - unfold readFileSync. cbn. destruct (content (w_fs w) p); discriminate.
Qed.

Lemma confined_fromDataAsync (P : string -> Prop) (E : Z -> Prop)
      (data : Buffer) (pw : option string) :
  confined P E (fromDataAsync data pw).
Proof.
  intros w. unfold fromDataAsync, lift_res. cbn.
  split; [apply touchesOnly_refl | destruct (fromData data pw); discriminate].
Qed.

Lemma confined_outputAsync (P : string -> Prop) (E : Z -> Prop)
      (wb : Workbook) (pw : option string) :
  confined P E (outputAsync wb pw).
Proof.
  intros w. unfold outputAsync. cbn. split.
  - apply (touchesOnly_events P w _ []); [reflexivity | |constructor].
    cbn. now rewrite app_nil_r.
  - destruct (output wb pw (w_tick w)); discriminate.
Qed.

(** ** Footprints of the operations *)

Lemma openFile_exists (fs : FileSystem) (p : string) (pw : option string) (wb : Workbook) :
  openFile fs p pw = Val wb -> is_Some (fs_files fs !! p).
Proof.
  unfold openFile, content. destruct (fs_files fs !! p); [eauto | discriminate].
Qed.

(** Closes a footprint goal whose two worlds are explicit. *)
Ltac footprint :=
  first
    [ eapply touchesOnly_events;
      [ reflexivity
      | unfold after; cbn [w_trace w_fs w_tick]; rewrite <- ?app_assoc; reflexivity
      | repeat constructor; cbn; intros; simplify_eq; auto ]
    | eapply touchesOnly_written;
      [ | | reflexivity
      | unfold after; cbn [w_trace w_fs w_tick]; rewrite <- ?app_assoc; reflexivity
      | repeat constructor; cbn; intros; simplify_eq; auto ];
      [ auto | eauto using openFile_exists ] ].

Lemma fromFileAsync_confined (P : string -> Prop) (E : Z -> Prop)
      (p : string) (pw : option string) :
  P p -> confined P E (fromFileAsync p pw).
Proof.
  intros HP. unfold fromFileAsync.
  apply confined_bind; [now apply confined_readFileSync|].
  intros data. apply confined_fromDataAsync.
Qed.

Lemma encryptFile_confined (filePath password : string) :
  confined (fun p => p = filePath) (fun _ => False) (encryptFile filePath password).
Proof.
  intros w. rewrite encryptFile_run. cbn zeta.
  destruct (openFile (w_fs w) filePath None) as [wb|msg] eqn:Hplain.
  - destruct (output wb (Some password) (w_tick w)); cbn [fst snd];
      (split; [footprint | discriminate]).
  - destruct (openFile (w_fs w) filePath (Some password)); cbn [fst snd];
      (split; [footprint | discriminate]).
Qed.

Lemma decryptFile_confined (filePath password : string) :
  confined (fun p => p = filePath) (fun _ => False) (decryptFile filePath password).
Proof.
  intros w. rewrite decryptFile_run. cbn zeta.
  destruct (openFile (w_fs w) filePath None) as [wb0|msg0].
  - cbn [fst snd]. split; [footprint | discriminate].
  - destruct (openFile (w_fs w) filePath (Some password)) as [wb|msg] eqn:Hkeyed.
    + destruct (output wb None (w_tick w)); cbn [fst snd];
        (split; [footprint | discriminate]).
    + cbn [fst snd]. split; [footprint | discriminate].
Qed.

Ltac confined_step :=
  first
    [ apply confined_console_log
    | apply confined_console_error
    | apply confined_fromDataAsync
    | apply confined_outputAsync
    | apply confined_existsSync
    | apply confined_isDirectory
    | apply confined_readdirSync
    | apply confined_readFileSync; solve [auto]
    | apply confined_ret
    | apply confined_throw
    | apply confined_bind; [|intros ?] ].

Lemma verifyFile_confined (filePath password : string) :
  confined (fun p => p = filePath) (fun _ => False) (verifyFile filePath password).
Proof. unfold verifyFile. cbn zeta. repeat confined_step. Qed.

Lemma dispatchBatch_confined (command file password : string) :
  confined (fun p => p = file) (fun _ => False) (dispatchBatch command file password).
Proof.
  unfold dispatchBatch.
  destruct (String.eqb command "encrypt"); [apply encryptFile_confined|].
  destruct (String.eqb command "decrypt"); [apply decryptFile_confined|].
  destruct (String.eqb command "verify"); [apply verifyFile_confined|].
  apply confined_ret.
Qed.

Lemma forFiles_confined (command password : string) (files : list string) (E : Z -> Prop) :
  forall success fail,
    confined (fun p => p ∈ files) E (forFiles command password files success fail).
Proof.
  induction files as [|file rest IH]; intros success fail.
  - apply confined_ret.
  - cbn [forFiles]. apply confined_bind.
    + apply confined_try_catch.
      * apply confined_bind; [|intros; apply confined_ret].
        eapply confined_mono; [| |apply dispatchBatch_confined].
        -- intros p ->. left.
        -- intros c [].
      * intros msg. apply confined_bind; [apply confined_console_error|].
        intros; apply confined_ret.
    + intros counters. eapply confined_mono; [| |apply IH]; [|auto].
      intros p Hp. now right.
Qed.

Lemma processFiles_confined (command password : string) (files : list string) (E : Z -> Prop) :
  confined (fun p => p ∈ files) E (processFiles command password files).
Proof.
  unfold processFiles. apply confined_bind; [apply forFiles_confined|].
  intros counters. apply confined_console_log.
Qed.

(** ** Footprint and exit status of a whole run *)

Lemma directoryMode_confined (command password dir : string) :
  confined (fun p => exists name, isCandidate name = true /\ p = path_join dir name)
           zeroOrOne (directoryMode command password dir).
Proof.
  unfold directoryMode. apply confined_bind; [apply confined_readdirSync|].
  intros names. cbn zeta.
  destruct (length (map (path_join dir) (List.filter isCandidate names)) =? 0)%nat.
  - apply confined_bind; [apply confined_console_log|].
    intros _. apply confined_exit. now left.
  - apply confined_bind; [apply confined_console_log|].
    intros _. eapply confined_mono; [| |apply processFiles_confined]; [|eauto].
    intros p Hp. apply list_elem_of_In, in_map_iff in Hp.
    destruct Hp as (name & <- & Hname). apply List.filter_In in Hname.
    exists name. now split.
Qed.

Lemma singleFileMode_confined (command password p : string) :
  confined (fun q => q = p) zeroOrOne (singleFileMode command password p).
Proof.
  unfold singleFileMode.
  destruct (String.eqb command "encrypt").
  { eapply confined_mono; [| |apply encryptFile_confined]; [auto | intros c []]. }
  destruct (String.eqb command "decrypt").
  { eapply confined_mono; [| |apply decryptFile_confined]; [auto | intros c []]. }
  destruct (String.eqb command "verify").
  { eapply confined_mono; [| |apply verifyFile_confined]; [auto | intros c []]. }
  apply confined_bind; [apply confined_console_error|].
  intros _. apply confined_exit. now right.
Qed.

Lemma main_confined (argv : list string) :
  confined (scriptScope argv) zeroOrOne (main argv).
Proof.
  unfold main.
  destruct (falsy (argv !! 2%nat) || falsy (argv !! 3%nat) || falsy (argv !! 4%nat)).
  - apply confined_bind; [|intros _; apply confined_exit; now right].
    unfold printUsage. repeat confined_step.
  - cbn zeta. apply confined_bind; [apply confined_existsSync|].
    intros found. destruct found; cbn [negb].
    + apply confined_bind; [apply confined_isDirectory|].
      intros isDir. destruct isDir.
      * eapply confined_mono; [| |apply directoryMode_confined]; [|auto].
        intros p Hp. now right.
      * eapply confined_mono; [| |apply singleFileMode_confined]; [|auto].
        intros p ->. now left.
    + apply confined_bind; [apply confined_console_error|].
      intros _. apply confined_exit. now right.
Qed.

Lemma script_confined (argv : list string) :
  confined (scriptScope argv) zeroOrOne (script argv).
Proof.
  unfold script. apply confined_try_catch; [apply main_confined|].
  intros msg. apply confined_bind; [apply confined_console_error|].
  intros _. apply confined_exit. now right.
Qed.

(** X1. Whatever the arguments, a run reads and writes only the resolved
    target or, under it, entries whose name passes the filter; it creates
    no file, deletes none, leaves the directories as they are, and every
    file outside that scope keeps its content. *)
Theorem script_footprint (argv : list string) (w : World) :
  touchesOnly (scriptScope argv) w (snd (script argv w)).
Proof. apply script_confined. Qed.


(** X3. Each operation reads and writes the file it is given and no other:
    all other files keep their content, no file appears or disappears, and
    none of the three ends the process. *)
Theorem operations_touch_only_target (filePath password : string) (w : World) :
  let only := fun p => p = filePath in
  (touchesOnly only w (snd (encryptFile filePath password w)) /\
   touchesOnly only w (snd (decryptFile filePath password w)) /\
   touchesOnly only w (snd (verifyFile filePath password w))) /\
  (forall c,
     fst (encryptFile filePath password w) <> Exit c /\
     fst (decryptFile filePath password w) <> Exit c /\
     fst (verifyFile filePath password w) <> Exit c).
Proof.
  cbn zeta.
  destruct (encryptFile_confined filePath password w) as [He He'].
  destruct (decryptFile_confined filePath password w) as [Hd Hd'].
  destruct (verifyFile_confined filePath password w) as [Hv Hv'].
  split; [split; [exact He | split; [exact Hd | exact Hv]]|].
  intros c. split; [|split]; intros H; [apply (He' c H) | apply (Hd' c H) | apply (Hv' c H)].
Qed.

(** ** What encrypt and decrypt do to the file *)





(** ** Single-file mode *)

Lemma singleFileMode_known (command password p : string) (w : World) :
  command = "encrypt" \/ command = "decrypt" \/ command = "verify" ->
  singleFileMode command password p w = dispatchBatch command p password w.
Proof.
  intros [-> | [-> | ->]]; reflexivity.
Qed.

(** X8. With a known command and a target that is a file, the run checks
    the target, then performs on it the very operation a batch performs on a
    candidate.  If the operation returns, so does the run; if it throws, the
    run prints the message as top-level error and exits with status 1. *)
Theorem single_file_run (node scriptPath command password target : string)
        (rest : list string) (w : World) :
  command = "encrypt" \/ command = "decrypt" \/ command = "verify" ->
  password <> "" -> target <> "" ->
  pathExists (w_fs w) (path_resolve target) = true ->
  pathIsDirectory (w_fs w) (path_resolve target) = false ->
  let p := path_resolve target in
  let r := dispatchBatch command p password (addEvents w [EvExists p; EvStat p]) in
  let run := script (node :: scriptPath :: command :: password :: target :: rest) w in
  (fst r = Return tt /\ run = (Return tt, snd r)) \/
  (exists msg,
     fst r = Throw msg /\
     run = (Exit 1, after (snd r) (EvErr (LTopLevelError msg)))).
Proof.
  intros Hknown Hp Ht Hex Hfile. cbn zeta.
  assert (Hc : command <> "") by (destruct Hknown as [-> | [-> | ->]]; discriminate).
  unfold script, try_catch.
  rewrite main_resolved by assumption. cbn zeta. rewrite Hex, Hfile.
  rewrite singleFileMode_known by assumption.
  destruct (dispatchBatch_outcome command (path_resolve target) password
              (addEvents w [EvExists (path_resolve target); EvStat (path_resolve target)]))
    as [w1 [Hok | [msg Hko]]].
  - rewrite Hok. left. now split.
  - rewrite Hko. right. exists msg. now split.
Qed.

(** ** More on verify *)

(** X9. Verify loads the original bytes without a password.  On a file that
    does not open that way, a protected one for instance, it stops at its
    first step with the codec's message, whatever the password, having
    serialised nothing. *)
Theorem verifyFile_needs_open_file (filePath password : string) (w : World)
        (original : Buffer) (msg : string) :
  content (w_fs w) filePath = Val original ->
  fromData original None = Err msg ->
  verifyFile filePath password w =
  (Throw msg,
   addEvents w
     [EvOut (LVerifyStart (path_basename filePath));
      EvRead filePath;
      EvOut (LOriginal (Z.of_nat (length original))
                       (String.substring 0 16 (hashBuffer original)));
      EvOut LStep1]).
Proof.
  intros Hc Hload. unfold verifyFile. cbn zeta.
  rewrite bind_console_log, bind_readFileSync. cbn [w_fs after]. rewrite Hc.
  rewrite !bind_console_log, bind_fromDataAsync, Hload.
  f_equal. same_world.
Qed.

(** X10. Verify runs to its end exactly when its seven calls into the
    codec succeed: the three loads and serialisations of the round trip and
    of the passthrough, and the reload of the decrypted bytes for the sheet
    comparison. *)
Theorem verifyFile_completes_iff (filePath password : string) (w : World) :
  fst (verifyFile filePath password w) = Return tt <->
  exists original wb encrypted wb2 decrypted passthrough decWb,
    content (w_fs w) filePath = Val original /\
    fromData original None = Val wb /\
    output wb (Some password) (w_tick w) = Val encrypted /\
    fromData encrypted (Some password) = Val wb2 /\
    output wb2 None (S (w_tick w)) = Val decrypted /\
    output wb None (S (S (w_tick w))) = Val passthrough /\
    fromData decrypted None = Val decWb.
Proof.
  split.
  - unfold verifyFile. cbn zeta. run_all.
    intros _. repeat eexists; eauto.
  - intros (original & wb & encrypted & wb2 & decrypted & passthrough & decWb &
            H1 & H2 & H3 & H4 & H5 & H6 & H7).
    eapply verifyFile_returns; eauto.
Qed.

(** ** The sheet comparison *)

Lemma hasComma_app_comma (a b : string) : hasComma (a +:+ "," +:+ b) = true.
Proof.
  induction a as [|c a IH]; [reflexivity|].
  change (String.eqb (String c "") "," || hasComma (a +:+ "," +:+ b) = true).
  rewrite IH. apply orb_true_r.
Qed.

Lemma app_comma_inj (x y a b : string) :
  hasComma x = false -> hasComma y = false ->
  x +:+ "," +:+ a = y +:+ "," +:+ b -> x = y /\ a = b.
Proof.
  revert y. induction x as [|c x IH]; intros [|d y] Hx Hy Heq.
  - split; [reflexivity|]. now inversion Heq.
  - exfalso. inversion Heq; subst. discriminate Hy.
  - exfalso. inversion Heq; subst. discriminate Hx.
  - inversion Heq as [[Hcd Heq']]. subst d.
    change (String.eqb (String c "") "," || hasComma x = false) in Hx.
    change (String.eqb (String c "") "," || hasComma y = false) in Hy.
    apply orb_false_iff in Hx as [_ Hx]. apply orb_false_iff in Hy as [_ Hy].
    destruct (IH y Hx Hy Heq') as [-> ->]. now split.
Qed.

Lemma last_four {A} (l : list A) (a b c d : A) :
  (((l ++ [a]) ++ [b]) ++ [c]) ++ [d] = l ++ [a; b; c; d].
Proof. now rewrite <- !app_assoc. Qed.

(** [join(',')] tells two non-empty lists of comma-free names apart. *)
Lemma join_comma_inj (l1 l2 : list string) :
  l1 <> [] -> l2 <> [] ->
  Forall (fun s => hasComma s = false) l1 ->
  Forall (fun s => hasComma s = false) l2 ->
  String.concat "," l1 = String.concat "," l2 -> l1 = l2.
Proof.
  revert l2. induction l1 as [|x [|x2 r1] IH]; intros [|y [|y2 r2]] H1 H2 F1 F2 Heq;
    try congruence.
  - cbn in Heq. now subst.
  - exfalso. cbn [String.concat] in Heq. apply Forall_inv in F1.
    rewrite Heq, hasComma_app_comma in F1. discriminate.
  - exfalso. cbn [String.concat] in Heq. apply Forall_inv in F2.
    rewrite <- Heq, hasComma_app_comma in F2. discriminate.
  - change (x +:+ "," +:+ String.concat "," (x2 :: r1) =
            y +:+ "," +:+ String.concat "," (y2 :: r2)) in Heq.
    apply app_comma_inj in Heq as [-> Heq];
      [|exact (Forall_inv F1)|exact (Forall_inv F2)].
    f_equal. apply IH; try discriminate; try assumption.
    + exact (Forall_inv_tail F1).
    + exact (Forall_inv_tail F2).
Qed.

(** X11. When verify runs to its end, its last four lines are the two sheet
    lists, the sheet-structure flag and the verdict.  The flag compares the
    names joined with commas: it is set whenever the two lists of names are
    equal, and when both lists are non-empty and no name holds a comma it is
    set only then. *)
Theorem verifyFile_sheet_flag (filePath password : string) (w w' : World) :
  verifyFile filePath password w = (Return tt, w') ->
  exists original wb encrypted wb2 decrypted decWb earlier flag verdict,
    content (w_fs w) filePath = Val original /\
    fromData original None = Val wb /\
    output wb (Some password) (w_tick w) = Val encrypted /\
    fromData encrypted (Some password) = Val wb2 /\
    output wb2 None (S (w_tick w)) = Val decrypted /\
    fromData decrypted None = Val decWb /\
    w_trace w' =
    earlier ++
    [EvOut (LOrigSheets (length (sheetNames wb)) (String.concat ", " (sheetNames wb)));
     EvOut (LDecSheets (length (sheetNames decWb)) (String.concat ", " (sheetNames decWb)));
     EvOut (LSheetsMatch flag);
     EvOut (LVerdict verdict)] /\
    (sheetNames wb = sheetNames decWb -> flag = true) /\
    (sheetNames wb <> [] -> sheetNames decWb <> [] ->
     Forall (fun s => hasComma s = false) (sheetNames wb) ->
     Forall (fun s => hasComma s = false) (sheetNames decWb) ->
     flag = true -> sheetNames wb = sheetNames decWb).
Proof.
  unfold verifyFile. cbn zeta. run_all.
  intros Hrun. injection Hrun as <-.
  match goal with
  | H1 : content _ _ = Val ?original, H2 : fromData ?original None = Val ?wb,
    H3 : output ?wb (Some _) _ = Val ?encrypted,
    H4 : fromData ?encrypted (Some _) = Val ?wb2,
    H5 : output ?wb2 None _ = Val ?decrypted,
    H6 : fromData ?decrypted None = Val ?decWb |- _ =>
      exists original, wb, encrypted, wb2, decrypted, decWb; eexists;
      exists (String.eqb (String.concat "," (sheetNames wb))
                         (String.concat "," (sheetNames decWb)));
      eexists
  end.
  do 6 (split; [assumption || reflexivity|]).
  split; [|split].
  - unfold console_log, emit, after. cbn [snd w_trace].
    apply last_four.
  - intros ->. apply String.eqb_refl.
  - intros Hne1 Hne2 Hc1 Hc2 Hflag. apply String.eqb_eq in Hflag.
    now apply join_comma_inj.
Qed.

(** ** Arguments *)

Lemma falsy_false (x : option string) :
  falsy x = false -> exists s, x = Some s /\ s <> "".
Proof.
  destruct x as [s|]; cbn; [|discriminate].
  intros H. exists s. split; [reflexivity|]. now apply String.eqb_neq.
Qed.

Lemma argv_tokens (argv : list string) :
  falsy (argv !! 2%nat) || falsy (argv !! 3%nat) || falsy (argv !! 4%nat) = false ->
  exists node scriptPath command password target rest,
    argv = node :: scriptPath :: command :: password :: target :: rest /\
    command <> "" /\ password <> "" /\ target <> "".
Proof.
  intros H. apply orb_false_iff in H as [H Ht]. apply orb_false_iff in H as [Hc Hp].
  destruct argv as [|node [|scriptPath [|command [|password [|target rest]]]]];
    try discriminate.
  apply falsy_false in Hc as (c & [= <-] & Hc).
  apply falsy_false in Hp as (p & [= <-] & Hp).
  apply falsy_false in Ht as (t & [= <-] & Ht).
  now exists node, scriptPath, command, password, target, rest.
Qed.




(** ** Decrypting twice *)

(** X13. With a codec whose unprotected output opens without a password,
    two decrypt runs in a row write the file at most once, and after a first
    run that returned the second returns too and leaves the file system as
    it found it. *)
Theorem decrypt_twice (filePath password : string) (w : World) :
  (forall wb t data,
      output wb None t = Val data -> is_val (fromData data None) = true) ->
  let r1 := decryptFile filePath password w in
  let r2 := decryptFile filePath password (snd r1) in
  (exists evs,
     w_trace (snd r2) = w_trace w ++ evs /\
     (length (List.filter isWrite evs) <= 1)%nat) /\
  (fst r1 = Return tt -> fst r2 = Return tt /\ w_fs (snd r2) = w_fs (snd r1)).
Proof.
  intros Hcodec. cbn zeta.
  rewrite (decryptFile_run filePath password w). cbn zeta.
  destruct (openFile (w_fs w) filePath None) as [wb0|msg0] eqn:Hplain.
  - cbn [snd fst]. rewrite decryptFile_run. cbn zeta. cbn [w_fs after].
    rewrite Hplain. cbn. split; [|auto].
    eexists. split; [rewrite <- !app_assoc; reflexivity | cbn; lia].
  - destruct (openFile (w_fs w) filePath (Some password)) as [wb|msg] eqn:Hkeyed.
    + destruct (output wb None (w_tick w)) as [data|msg] eqn:Hout.
      * cbn [snd fst]. rewrite decryptFile_run. cbn zeta. cbn [w_fs after].
        rewrite openFile_written.
        pose proof (Hcodec _ _ _ Hout) as Hopen.
        destruct (fromData data None); [|discriminate]. cbn.
        split; [|auto].
        eexists. split; [rewrite <- !app_assoc; reflexivity | cbn; lia].
      * cbn [snd fst]. rewrite decryptFile_run. cbn zeta. cbn [w_fs w_tick after].
        rewrite Hplain, Hkeyed. split; [|discriminate].
        destruct (output wb None (S (w_tick w))); cbn;
          eexists; (split; [rewrite <- !app_assoc; reflexivity | cbn; lia]).
    + cbn [snd fst]. rewrite decryptFile_run. cbn zeta. cbn [w_fs after].
      rewrite Hplain, Hkeyed. cbn. split; [|discriminate].
      eexists. split; [rewrite <- !app_assoc; reflexivity | cbn; lia].
Qed.

(** ** Commands that write nothing *)

Lemma writesNothing_ret {A} (a : A) : writesNothing (ret a).
Proof. intros w. split; [reflexivity|]. exists []. now rewrite app_nil_r. Qed.

Lemma writesNothing_exit {A} (c : Z) : writesNothing (@process_exit A c).
Proof. intros w. split; [reflexivity|]. exists []. now rewrite app_nil_r. Qed.

Lemma writesNothing_bind {A B} (m : M A) (k : A -> M B) :
  writesNothing m -> (forall a, writesNothing (k a)) -> writesNothing (bind m k).
Proof.
  intros Hm Hk w. unfold bind. destruct (Hm w) as (Hfs & evs & Ht & Hw).
  destruct (m w) as [[a|msg|c] w1]; cbn in *; try (split; [assumption | eauto]).
  destruct (Hk a w1) as (Hfs' & evs' & Ht' & Hw').
  split; [congruence|]. exists (evs ++ evs'). split.
  - now rewrite Ht', Ht, app_assoc.
  - now rewrite List.filter_app, Hw, Hw'.
Qed.

Lemma writesNothing_try_catch {A} (m : M A) (h : string -> M A) :
  writesNothing m -> (forall msg, writesNothing (h msg)) -> writesNothing (try_catch m h).
Proof.
  intros Hm Hh w. unfold try_catch. destruct (Hm w) as (Hfs & evs & Ht & Hw).
  destruct (m w) as [[a|msg|c] w1]; cbn in *; try (split; [assumption | eauto]).
  destruct (Hh msg w1) as (Hfs' & evs' & Ht' & Hw').
  split; [congruence|]. exists (evs ++ evs'). split.
  - now rewrite Ht', Ht, app_assoc.
  - now rewrite List.filter_app, Hw, Hw'.
Qed.

Lemma writesNothing_step {A} (m : M A) (e : Event) :
  isWrite e = false ->
  (forall w, snd (m w) = after w e) ->
  writesNothing m.
Proof.
  intros He Hm w. rewrite Hm. split; [reflexivity|].
  exists [e]. split; [reflexivity|]. cbn. now rewrite He.
Qed.

Lemma writesNothing_fromDataAsync (data : Buffer) (pw : option string) :
  writesNothing (fromDataAsync data pw).
Proof. intros w. split; [reflexivity|]. exists []. cbn. now rewrite app_nil_r. Qed.

Lemma writesNothing_outputAsync (wb : Workbook) (pw : option string) :
  writesNothing (outputAsync wb pw).
Proof. intros w. split; [reflexivity|]. exists []. cbn. now rewrite app_nil_r. Qed.

Ltac quiet_step :=
  first
    [ apply writesNothing_ret
    | apply writesNothing_exit
    | apply writesNothing_fromDataAsync
    | apply writesNothing_outputAsync
    | eapply writesNothing_step; [|intros ?; reflexivity]; reflexivity
    | apply writesNothing_bind; [|intros ?]
    | apply writesNothing_try_catch; [|intros ?] ].

Lemma verifyFile_writesNothing (filePath password : string) :
  writesNothing (verifyFile filePath password).
Proof. unfold verifyFile. cbn zeta. repeat quiet_step. Qed.

Lemma dispatchBatch_writesNothing (command file password : string) :
  command <> "encrypt" -> command <> "decrypt" ->
  writesNothing (dispatchBatch command file password).
Proof.
  intros He Hd. unfold dispatchBatch.
  apply String.eqb_neq in He, Hd. rewrite He, Hd.
  destruct (String.eqb command "verify");
    [apply verifyFile_writesNothing | apply writesNothing_ret].
Qed.

Lemma forFiles_writesNothing (command password : string) (files : list string) :
  command <> "encrypt" -> command <> "decrypt" ->
  forall success fail, writesNothing (forFiles command password files success fail).
Proof.
  intros He Hd. induction files as [|file rest IH]; intros success fail.
  - apply writesNothing_ret.
  - cbn [forFiles]. apply writesNothing_bind; [|intros counters; apply IH].
    apply writesNothing_try_catch.
    + apply writesNothing_bind; [|intros; apply writesNothing_ret].
      now apply dispatchBatch_writesNothing.
    + intros msg. repeat quiet_step.
Qed.

Lemma main_writesNothing (argv : list string) :
  argv !! 2%nat <> Some "encrypt" -> argv !! 2%nat <> Some "decrypt" ->
  writesNothing (main argv).
Proof.
  intros He Hd. unfold main.
  destruct (falsy (argv !! 2%nat) || falsy (argv !! 3%nat) || falsy (argv !! 4%nat))
    eqn:Hfalsy.
  - unfold printUsage. repeat quiet_step.
  - apply argv_tokens in Hfalsy
      as (node & scriptPath & command & password & target & rest & -> & Hc & Hp & Ht).
    cbn [lookup list_lookup default id] in *.
    assert (He' : command <> "encrypt") by congruence.
    assert (Hd' : command <> "decrypt") by congruence.
    cbn zeta. apply writesNothing_bind; [quiet_step|]. intros found.
    destruct found; cbn [negb]; [|repeat quiet_step].
    apply writesNothing_bind; [quiet_step|]. intros isDir. destruct isDir.
    + unfold directoryMode. apply writesNothing_bind; [quiet_step|].
      intros names. cbn zeta.
      destruct (length (map (path_join (path_resolve target))
                            (List.filter isCandidate names)) =? 0)%nat;
        [repeat quiet_step|].
      apply writesNothing_bind; [quiet_step|]. intros _.
      unfold processFiles. apply writesNothing_bind; [|intros; quiet_step].
      now apply forFiles_writesNothing.
    + unfold singleFileMode. apply String.eqb_neq in He', Hd'. rewrite He', Hd'.
      destruct (String.eqb command "verify");
        [apply verifyFile_writesNothing | repeat quiet_step].
Qed.

(** X15. Only the commands [encrypt] and [decrypt] ever write.  With any
    other command, [verify] included, on a file or on a directory, and
    however the run ends, the file system afterwards is the one before and
    the trace shows no write. *)
Theorem other_commands_write_nothing (argv : list string) (w : World) :
  argv !! 2%nat <> Some "encrypt" -> argv !! 2%nat <> Some "decrypt" ->
  w_fs (snd (script argv w)) = w_fs w /\
  exists evs,
    w_trace (snd (script argv w)) = w_trace w ++ evs /\
    List.filter isWrite evs = [].
Proof.
  intros He Hd.
  assert (Hscript : writesNothing (script argv)).
  { unfold script. apply writesNothing_try_catch; [now apply main_writesNothing|].
    intros msg. repeat quiet_step. }
  apply Hscript.
Qed.

End Script.

(** * The candidate filter *)

Lemma substring_all (s : string) : String.substring 0 (String.length s) s = s.
Proof. induction s as [|c s IH]; simpl; [reflexivity | now rewrite IH]. Qed.

Lemma length_app_string (p s : string) :
  String.length (p +:+ s) = (String.length p + String.length s)%nat.
Proof. induction p as [|c p IH]; simpl; [reflexivity | now rewrite IH]. Qed.

Lemma substring_skip_app (p s : string) :
  String.substring (String.length p) (String.length s) (p +:+ s) = s.
Proof. induction p as [|c p IH]; simpl; [apply substring_all | exact IH]. Qed.

Lemma substring_split (s : string) (k : nat) :
  (k <= String.length s)%nat ->
  s = String.substring 0 k s +:+ String.substring k (String.length s - k) s.
Proof.
  revert k. induction s as [|c s IH]; intros k Hk.
  - destruct k; reflexivity.
  - destruct k as [|k]; simpl.
    + now rewrite substring_all.
    + simpl in Hk. change (String c s = String c
        (String.substring 0 k s +:+ String.substring k (String.length s - k) s)).
      f_equal. apply IH. lia.
Qed.

Lemma endsWith_spec (s suf : string) :
  endsWith s suf = true <-> exists p, s = p +:+ suf.
Proof.
  unfold endsWith. split.
  - destruct (Nat.leb_spec (String.length suf) (String.length s)) as [Hle|Hlt];
      [|discriminate].
    intros Heq. apply String.eqb_eq in Heq.
    exists (String.substring 0 (String.length s - String.length suf) s).
    pose proof (substring_split s (String.length s - String.length suf)) as Hs.
    replace (String.length s - (String.length s - String.length suf))%nat
      with (String.length suf) in Hs by lia.
    rewrite Heq in Hs. apply Hs. lia.
  - intros [p ->]. rewrite length_app_string.
    destruct (Nat.leb_spec (String.length suf) (String.length p + String.length suf))
      as [_|Hlt]; [|lia].
    replace (String.length p + String.length suf - String.length suf)%nat
      with (String.length p) by lia.
    rewrite substring_skip_app. apply String.eqb_refl.
Qed.

Lemma prefix_app (pre q : string) : String.prefix pre (pre +:+ q) = true.
Proof.
  induction pre as [|c pre IH]; simpl.
  - now destruct q.
  - destruct (Ascii.ascii_dec c c) as [_|Hne]; [exact IH | now destruct Hne].
Qed.

Lemma startsWith_spec (s pre : string) :
  startsWith s pre = true <-> exists q, s = pre +:+ q.
Proof.
  unfold startsWith. split.
  - revert s. induction pre as [|c pre IH]; intros s H.
    + exists s. reflexivity.
    + destruct s as [|d s]; simpl in H; [discriminate|].
      destruct (Ascii.ascii_dec c d) as [->|]; [|discriminate].
      destruct (IH s H) as [q ->]. now exists q.
  - intros [q ->]. apply prefix_app.
Qed.

(** C5. A directory entry is a candidate exactly when its name ends with
    [.xlsx] (compared character by character, so case matters) and does not
    start with [~$]; of [a.xlsx], [~$a.xlsx], [b.txt], [B.XLSX] only
    [a.xlsx] is selected. *)
Theorem candidate_filter :
  (forall f : string,
     isCandidate f = true <->
     (exists p, f = p +:+ ".xlsx") /\ ~ (exists q, f = "~$" +:+ q)) /\
  List.filter isCandidate ["a.xlsx"; "~$a.xlsx"; "b.txt"; "B.XLSX"] = ["a.xlsx"].
Proof.
  split; [|reflexivity].
  intros f. unfold isCandidate.
  rewrite andb_true_iff, negb_true_iff, endsWith_spec.
  rewrite <- (startsWith_spec f "~$").
  destruct (startsWith f "~$"); split; intros [H1 H2]; split; auto; congruence.
Qed.

(** ** The script on the concrete instance *)

Abbreviation demoEncrypt :=
  (encryptFile Demo.fs_error Demo.path_basename Demo.Workbook Demo.fromData Demo.output).
Abbreviation demoDecrypt :=
  (decryptFile Demo.fs_error Demo.path_basename Demo.Workbook Demo.fromData Demo.output).
Abbreviation demoVerify :=
  (verifyFile Demo.fs_error Demo.path_basename Demo.Workbook Demo.fromData Demo.output
     Demo.sheetNames Demo.hashBuffer).
Abbreviation demoDispatch :=
  (dispatchBatch Demo.fs_error Demo.path_basename Demo.Workbook Demo.fromData Demo.output
     Demo.sheetNames Demo.hashBuffer).
Abbreviation demoBatchRun :=
  (batchRun Demo.fs_error Demo.path_basename Demo.Workbook Demo.fromData Demo.output
     Demo.sheetNames Demo.hashBuffer).
Abbreviation demoScript :=
  (script Demo.fs_error Demo.path_resolve Demo.path_join Demo.path_basename
     Demo.Workbook Demo.fromData Demo.output Demo.sheetNames Demo.hashBuffer).

Lemma demo_codec_protects (password : string) (wb : Demo.Workbook) (t : nat) (data : Buffer) :
  Demo.output wb (Some password) t = Val data ->
  is_val (Demo.fromData data None) = false.
Proof. cbn. intros H. injection H as <-. reflexivity. Qed.

(** A whole encrypt pass over [/d]: one file encrypted, one failure, one
    skip, and the report counts two successes and one failure. *)
Example demo_encrypt_pass :
  let r := demoScript ["node"; "encrypt-excel.js"; "encrypt"; "1234"; "/d"] Demo.world in
  fst r = Return tt /\
  w_trace (snd r) =
  [EvExists "/d"; EvStat "/d"; EvReaddir "/d"; EvOut (LBatchHeader 3 true);
   EvRead "/d/a.xlsx"; EvRead "/d/a.xlsx";
   EvWrite "/d/a.xlsx" [Byte.x01; Byte.x31; Byte.x41];
   EvOut (LEncryptDone "a.xlsx");
   EvRead "/d/c.xlsx"; EvRead "/d/c.xlsx";
   EvErr (LFileFailed "c.xlsx" probe_error);
   EvRead "/d/s.xlsx"; EvRead "/d/s.xlsx";
   EvOut (LEncryptSkipped "s.xlsx");
   EvOut (LBatchDone 2 1)].
Proof. vm_compute. split; reflexivity. Qed.

Lemma encrypt_decrypt_idempotent_demo :
  demoEncrypt "/d/s.xlsx" "1234" Demo.world =
  (Return tt,
   mkWorld (w_fs Demo.world)
     (w_trace Demo.world ++
        [EvRead "/d/s.xlsx"; EvRead "/d/s.xlsx";
         EvOut (LEncryptSkipped (Demo.path_basename "/d/s.xlsx"))])
     (w_tick Demo.world)) /\
  demoDecrypt "/d/a.xlsx" "1234" Demo.world =
  (Return tt,
   mkWorld (w_fs Demo.world)
     (w_trace Demo.world ++
        [EvRead "/d/a.xlsx";
         EvOut (LDecryptSkipped (Demo.path_basename "/d/a.xlsx"))])
     (w_tick Demo.world)) /\
  (let r1 := demoEncrypt "/d/a.xlsx" "1234" Demo.world in
   let r2 := demoEncrypt "/d/a.xlsx" "1234" (snd r1) in
   (exists evs,
      w_trace (snd r2) = w_trace Demo.world ++ evs /\
      (length (List.filter isWrite evs) <= 1)%nat) /\
   (fst r1 = Return tt -> w_fs (snd r2) = w_fs (snd r1))).
Proof.
  split; [|split].
  - apply (encrypt_decrypt_idempotent Demo.fs_error Demo.path_basename Demo.Workbook
             Demo.fromData Demo.output "/d/s.xlsx" "1234" Demo.world).
    vm_compute. reflexivity.
  - apply (encrypt_decrypt_idempotent Demo.fs_error Demo.path_basename Demo.Workbook
             Demo.fromData Demo.output "/d/a.xlsx" "1234" Demo.world).
    vm_compute. reflexivity.
  - apply (encrypt_decrypt_idempotent Demo.fs_error Demo.path_basename Demo.Workbook
             Demo.fromData Demo.output "/d/a.xlsx" "1234" Demo.world).
    apply demo_codec_protects.
Defined.

Lemma verifyFile_verdict_demo :
  exists original wb encrypted wb2 decrypted passthrough,
    content Demo.fs_error (w_fs Demo.world) "/d/a.xlsx" = Val original /\
    Demo.fromData original None = Val wb /\
    Demo.output wb (Some "1234") (w_tick Demo.world) = Val encrypted /\
    Demo.fromData encrypted (Some "1234") = Val wb2 /\
    Demo.output wb2 None (S (w_tick Demo.world)) = Val decrypted /\
    Demo.output wb None (S (S (w_tick Demo.world))) = Val passthrough /\
    last (w_trace (snd (demoVerify "/d/a.xlsx" "1234" Demo.world))) =
    Some (EvOut (LVerdict (String.eqb (Demo.hashBuffer passthrough)
                                      (Demo.hashBuffer decrypted)))).
Proof.
  apply (verifyFile_verdict Demo.fs_error Demo.path_basename Demo.Workbook
           Demo.fromData Demo.output Demo.sheetNames Demo.hashBuffer
           "/d/a.xlsx" "1234" Demo.world).
  vm_compute. reflexivity.
Defined.

Lemma batch_report_demo :
  let files := ["/d/a.xlsx"; "/d/c.xlsx"; "/d/s.xlsx"] in
  exists results w',
    demoBatchRun "encrypt" "1234" files
      (addEvents Demo.world
         [EvExists "/d"; EvStat "/d"; EvReaddir "/d"; EvOut (LBatchHeader 3 true)])
      results w' /\
    map fst results = files /\
    demoScript ["node"; "encrypt-excel.js"; "encrypt"; "1234"; "/d"] Demo.world =
    (Return tt,
     after w' (EvOut (LBatchDone (3 - countFailed results) (countFailed results)))).
Proof.
  apply (proj2 (batch_report Demo.fs_error Demo.path_resolve Demo.path_join
                  Demo.path_basename Demo.Workbook Demo.fromData Demo.output
                  Demo.sheetNames Demo.hashBuffer "encrypt" "1234")
           "node" "encrypt-excel.js" "/d" []
           ["a.xlsx"; "~$a.xlsx"; "b.txt"; "B.XLSX"; "c.xlsx"; "s.xlsx"] Demo.world);
    try discriminate.
  vm_compute. reflexivity.
Defined.

Lemma unknown_command_batch_demo :
  let r := demoScript ["node"; "encrypt-excel.js"; "foo"; "1234"; "/d"] Demo.world in
  r = (Return tt,
       addEvents Demo.world
         [EvExists "/d"; EvStat "/d"; EvReaddir "/d";
          EvOut (LBatchHeader 3 false); EvOut (LBatchDone 3 0)]) /\
  noFileTouched Demo.world (snd r).
Proof.
  apply (proj2 (proj2 (unknown_command_batch Demo.fs_error Demo.path_resolve
                         Demo.path_join Demo.path_basename Demo.Workbook Demo.fromData
                         Demo.output Demo.sheetNames Demo.hashBuffer "foo" "1234"
                         ltac:(discriminate) ltac:(discriminate) ltac:(discriminate)))
           "node" "encrypt-excel.js" "/d" []
           ["a.xlsx"; "~$a.xlsx"; "b.txt"; "B.XLSX"; "c.xlsx"; "s.xlsx"] Demo.world);
    try discriminate.
  vm_compute. reflexivity.
Defined.

(** C4, as the specification words it, fails: with the command [foo] the
    dispatch on a candidate is not a verify of that candidate, and the whole
    run over [/d] neither starts a verification nor reads any file, where a
    verify pass does both. *)
Lemma unknown_command_is_not_verify :
  demoDispatch "foo" "/d/a.xlsx" "1234" Demo.world <>
  demoVerify "/d/a.xlsx" "1234" Demo.world /\
  (let foo := demoScript ["node"; "encrypt-excel.js"; "foo"; "1234"; "/d"] Demo.world in
   let verify := demoScript ["node"; "encrypt-excel.js"; "verify"; "1234"; "/d"] Demo.world in
   List.filter isFileAccess (w_trace (snd foo)) = [] /\
   List.filter isFileAccess (w_trace (snd verify)) =
   [EvRead "/d/a.xlsx"; EvRead "/d/c.xlsx"; EvRead "/d/s.xlsx"] /\
   In (EvOut (LVerifyStart "a.xlsx")) (w_trace (snd verify)) /\
   ~ In (EvOut (LVerifyStart "a.xlsx")) (w_trace (snd foo))).
Proof.
  split.
  - vm_compute. discriminate.
  - vm_compute. repeat split; try reflexivity.
    + tauto.
    + intros H. repeat (destruct H as [H|H]; [discriminate H|]). exact H.
Qed.

Lemma usage_errors_demo :
  demoScript ["node"; "encrypt-excel.js"; "encrypt"] Demo.world =
  (Exit 1, addEvents Demo.world usageLines) /\
  demoScript ["node"; "encrypt-excel.js"; "encrypt"; "1234"; "/nowhere"] Demo.world =
  (Exit 1, addEvents Demo.world [EvExists "/nowhere"; EvErr (LNotFound "/nowhere")]) /\
  demoScript ["node"; "encrypt-excel.js"; "foo"; "1234"; "/d/a.xlsx"] Demo.world =
  (Exit 1,
   addEvents Demo.world
     [EvExists "/d/a.xlsx"; EvStat "/d/a.xlsx"; EvErr (LUnknownCommand "foo")]).
Proof.
  split; [|split].
  - apply (proj1 (usage_errors Demo.fs_error Demo.path_resolve Demo.path_join
                    Demo.path_basename Demo.Workbook Demo.fromData Demo.output
                    Demo.sheetNames Demo.hashBuffer
                    ["node"; "encrypt-excel.js"; "encrypt"] Demo.world)).
    right. left. reflexivity.
  - destruct (proj2 (usage_errors Demo.fs_error Demo.path_resolve Demo.path_join
                       Demo.path_basename Demo.Workbook Demo.fromData Demo.output
                       Demo.sheetNames Demo.hashBuffer
                       ["node"; "encrypt-excel.js"; "encrypt"; "1234"; "/nowhere"]
                       Demo.world)
                "node" "encrypt-excel.js" "encrypt" "1234" "/nowhere" []
                eq_refl ltac:(discriminate) ltac:(discriminate) ltac:(discriminate))
      as [Hmissing _].
    apply Hmissing. vm_compute. reflexivity.
  - destruct (proj2 (usage_errors Demo.fs_error Demo.path_resolve Demo.path_join
                       Demo.path_basename Demo.Workbook Demo.fromData Demo.output
                       Demo.sheetNames Demo.hashBuffer
                       ["node"; "encrypt-excel.js"; "foo"; "1234"; "/d/a.xlsx"]
                       Demo.world)
                "node" "encrypt-excel.js" "foo" "1234" "/d/a.xlsx" []
                eq_refl ltac:(discriminate) ltac:(discriminate) ltac:(discriminate))
      as [_ Hunknown].
    apply Hunknown; try discriminate; vm_compute; reflexivity.
Defined.

Lemma no_candidates_demo :
  let r := demoScript ["node"; "encrypt-excel.js"; "encrypt"; "1234"; "/empty"] Demo.world in
  r = (Exit 0,
       addEvents Demo.world
         [EvExists "/empty"; EvStat "/empty"; EvReaddir "/empty"; EvOut LNoTargets]) /\
  noFileTouched Demo.world (snd r).
Proof.
  apply (no_candidates Demo.fs_error Demo.path_resolve Demo.path_join
           Demo.path_basename Demo.Workbook Demo.fromData Demo.output
           Demo.sheetNames Demo.hashBuffer
           "node" "encrypt-excel.js" "encrypt" "1234" "/empty" []
           ["notes.txt"; "~$x.xlsx"] Demo.world);
    try discriminate; vm_compute; reflexivity.
Defined.

(** * Sizes for display *)

Lemma append_assoc_string (a b c : string) : (a +:+ b) +:+ c = a +:+ (b +:+ c).
Proof.
  induction a as [|x a IH]; [reflexivity|].
  change (String x ((a +:+ b) +:+ c) = String x (a +:+ (b +:+ c))).
  now rewrite IH.
Qed.

(** X14. [formatSize] shows a size below 1024 in bytes, exactly; a size
    below 1024 * 1024 in KB with one decimal, from 1.0 up to 1024.0; any
    larger size in MB with two decimals, from 1.00.  The number shown is the
    nearest one with that many decimals, the upper one on a tie. *)
Theorem formatSize_rounds (bytes : N) :
  (bytes < 2 ^ 53)%N ->
  ((bytes < 1024)%N -> formatSize bytes = pretty bytes +:+ " B") /\
  ((1024 <= bytes < 1024 * 1024)%N ->
   exists n : N,
     formatSize bytes = pretty (n / 10)%N +:+ "." +:+ pretty (n mod 10)%N +:+ " KB" /\
     (10 <= n <= 10240)%N /\
     (1024 * n <= 10 * bytes + 512 < 1024 * (n + 1))%N) /\
  ((1024 * 1024 <= bytes)%N ->
   exists n : N,
     formatSize bytes =
     pretty (n / 100)%N +:+ "." +:+
     pretty (n / 10 mod 10)%N +:+ pretty (n mod 10)%N +:+ " MB" /\
     (100 <= n)%N /\
     (1048576 * n <= 100 * bytes + 524288 < 1048576 * (n + 1))%N).
Proof.
  intros _. unfold formatSize. split; [|split].
  - intros Hlt. apply N.ltb_lt in Hlt. now rewrite Hlt.
  - intros [Hge Hlt].
    apply N.ltb_ge in Hge. apply N.ltb_lt in Hlt. rewrite Hge, Hlt.
    apply N.ltb_ge in Hge. apply N.ltb_lt in Hlt.
    exists (toFixedNearest 1 bytes 1024). split.
    + unfold toFixed. cbn [fracDigits N.of_nat].
      change (10 ^ N.pos (Pos.of_succ_nat 0))%N with 10%N.
      change ("" +:+ pretty (toFixedNearest 1 bytes 1024 mod 10)%N)
        with (pretty (toFixedNearest 1 bytes 1024 mod 10)%N).
      now rewrite !append_assoc_string.
    + unfold toFixedNearest. change (10 ^ N.of_nat 1)%N with 10%N.
      pose proof (N.div_mod' (2 * bytes * 10 + 1024) (2 * 1024)) as Hdiv.
      pose proof (N.mod_lt (2 * bytes * 10 + 1024) (2 * 1024)) as Hmod.
      set (q := ((2 * bytes * 10 + 1024) / (2 * 1024))%N) in *.
      set (r := ((2 * bytes * 10 + 1024) mod (2 * 1024))%N) in *.
      lia.
  - intros Hge.
    assert (Hkb : (bytes <? 1024)%N = false) by (apply N.ltb_ge; lia).
    apply N.ltb_ge in Hge. rewrite Hkb, Hge. apply N.ltb_ge in Hge.
    exists (toFixedNearest 2 bytes (1024 * 1024)). split.
    + unfold toFixed. cbn [fracDigits N.of_nat].
      change (10 ^ N.pos (Pos.of_succ_nat 1))%N with 100%N.
      change ("" +:+ pretty (toFixedNearest 2 bytes (1024 * 1024) / 10 mod 10)%N)
        with (pretty (toFixedNearest 2 bytes (1024 * 1024) / 10 mod 10)%N).
      now rewrite !append_assoc_string.
    + unfold toFixedNearest. change (10 ^ N.of_nat 2)%N with 100%N.
      change (1024 * 1024)%N with 1048576%N in *.
      pose proof (N.div_mod' (2 * bytes * 100 + 1048576) (2 * 1048576)) as Hdiv.
      pose proof (N.mod_lt (2 * bytes * 100 + 1048576) (2 * 1048576)) as Hmod.
      set (q := ((2 * bytes * 100 + 1048576) / (2 * 1048576))%N) in *.
      set (r := ((2 * bytes * 100 + 1048576) mod (2 * 1048576))%N) in *.
      lia.
Qed.

(** At the top of the KB range the number shown rounds up to 1024.0. *)
Example formatSize_edges :
  map formatSize [0; 1023; 1024; 1280; 1048524; 1048525; 1048575; 1048576; 123456789]%N =
  ["0 B"; "1023 B"; "1.0 KB"; "1.3 KB"; "1023.9 KB"; "1024.0 KB"; "1024.0 KB";
   "1.00 MB"; "117.74 MB"].
Proof. vm_compute. reflexivity. Qed.

(** ** The further properties on the concrete instance *)





Lemma single_file_run_demo :
  let p := Demo.path_resolve "/d/a.xlsx" in
  let r := demoDispatch "encrypt" p "1234"
             (addEvents Demo.world [EvExists p; EvStat p]) in
  let run := demoScript ["node"; "encrypt-excel.js"; "encrypt"; "1234"; "/d/a.xlsx"]
               Demo.world in
  (fst r = Return tt /\ run = (Return tt, snd r)) \/
  (exists msg,
     fst r = Throw msg /\
     run = (Exit 1, after (snd r) (EvErr (LTopLevelError msg)))).
Proof.
  apply (single_file_run Demo.fs_error Demo.path_resolve Demo.path_join
           Demo.path_basename Demo.Workbook Demo.fromData Demo.output
           Demo.sheetNames Demo.hashBuffer
           "node" "encrypt-excel.js" "encrypt" "1234" "/d/a.xlsx" [] Demo.world);
    try discriminate; try (vm_compute; reflexivity).
  left. reflexivity.
Defined.

Lemma verifyFile_needs_open_file_demo :
  demoVerify "/d/s.xlsx" "1234" Demo.world =
  (Throw "password required",
   addEvents Demo.world
     [EvOut (LVerifyStart (Demo.path_basename "/d/s.xlsx"));
      EvRead "/d/s.xlsx";
      EvOut (LOriginal (Z.of_nat (length [Byte.x01; Byte.x31; Byte.x53]))
               (String.substring 0 16
                  (Demo.hashBuffer [Byte.x01; Byte.x31; Byte.x53])));
      EvOut LStep1]).
Proof.
  apply (verifyFile_needs_open_file Demo.fs_error Demo.path_basename Demo.Workbook
           Demo.fromData Demo.output Demo.sheetNames Demo.hashBuffer
           "/d/s.xlsx" "1234" Demo.world [Byte.x01; Byte.x31; Byte.x53]);
    vm_compute; reflexivity.
Defined.

Lemma verifyFile_sheet_flag_demo :
  exists original wb encrypted wb2 decrypted decWb earlier flag verdict,
    content Demo.fs_error (w_fs Demo.world) "/d/a.xlsx" = Val original /\
    Demo.fromData original None = Val wb /\
    Demo.output wb (Some "1234") (w_tick Demo.world) = Val encrypted /\
    Demo.fromData encrypted (Some "1234") = Val wb2 /\
    Demo.output wb2 None (S (w_tick Demo.world)) = Val decrypted /\
    Demo.fromData decrypted None = Val decWb /\
    w_trace (snd (demoVerify "/d/a.xlsx" "1234" Demo.world)) =
    earlier ++
    [EvOut (LOrigSheets (length (Demo.sheetNames wb))
                        (String.concat ", " (Demo.sheetNames wb)));
     EvOut (LDecSheets (length (Demo.sheetNames decWb))
                       (String.concat ", " (Demo.sheetNames decWb)));
     EvOut (LSheetsMatch flag);
     EvOut (LVerdict verdict)] /\
    (Demo.sheetNames wb = Demo.sheetNames decWb -> flag = true) /\
    (Demo.sheetNames wb <> [] -> Demo.sheetNames decWb <> [] ->
     Forall (fun s => hasComma s = false) (Demo.sheetNames wb) ->
     Forall (fun s => hasComma s = false) (Demo.sheetNames decWb) ->
     flag = true -> Demo.sheetNames wb = Demo.sheetNames decWb).
Proof.
  apply (verifyFile_sheet_flag Demo.fs_error Demo.path_basename Demo.Workbook
           Demo.fromData Demo.output Demo.sheetNames Demo.hashBuffer
           "/d/a.xlsx" "1234" Demo.world).
  vm_compute. reflexivity.
Defined.

Lemma demo_codec_reopens (wb : Demo.Workbook) (t : nat) (data : Buffer) :
  Demo.output wb None t = Val data -> is_val (Demo.fromData data None) = true.
Proof. cbn. intros H. injection H as <-. reflexivity. Qed.

Lemma decrypt_twice_demo :
  let r1 := demoDecrypt "/d/s.xlsx" "1234" Demo.world in
  let r2 := demoDecrypt "/d/s.xlsx" "1234" (snd r1) in
  (exists evs,
     w_trace (snd r2) = w_trace Demo.world ++ evs /\
     (length (List.filter isWrite evs) <= 1)%nat) /\
  (fst r1 = Return tt -> fst r2 = Return tt /\ w_fs (snd r2) = w_fs (snd r1)).
Proof.
  apply (decrypt_twice Demo.fs_error Demo.path_basename Demo.Workbook
           Demo.fromData Demo.output "/d/s.xlsx" "1234" Demo.world).
  apply demo_codec_reopens.
Defined.

Lemma formatSize_rounds_demo :
  formatSize 1536 = "1.5 KB" /\
  exists n : N,
    formatSize 1536 = pretty (n / 10)%N +:+ "." +:+ pretty (n mod 10)%N +:+ " KB" /\
    (10 <= n <= 10240)%N /\
    (1024 * n <= 10 * 1536 + 512 < 1024 * (n + 1))%N.
Proof.
  split; [vm_compute; reflexivity|].
  apply (proj1 (proj2 (formatSize_rounds 1536 ltac:(reflexivity)))).
  split; [discriminate | reflexivity].
Defined.

Lemma other_commands_write_nothing_demo :
  let run := demoScript ["node"; "encrypt-excel.js"; "verify"; "1234"; "/d"] Demo.world in
  w_fs (snd run) = w_fs Demo.world /\
  exists evs,
    w_trace (snd run) = w_trace Demo.world ++ evs /\
    List.filter isWrite evs = [].
Proof.
  apply (other_commands_write_nothing Demo.fs_error Demo.path_resolve Demo.path_join
           Demo.path_basename Demo.Workbook Demo.fromData Demo.output
           Demo.sheetNames Demo.hashBuffer
           ["node"; "encrypt-excel.js"; "verify"; "1234"; "/d"] Demo.world);
    discriminate.
Defined.
